(** * STlooper: the loop recording and playback engine of looper_v0.6.py

    A shallow embedding of the engine of [src/looper_v0.6.py] (the same
    functions are found, unchanged but for layout, in [src/looper_v0.4.py]):
    the audio callback, the record toggle, the loop reset, the playback and
    monitor toggles and the timed recording.

    The module level variables of the script are the fields of [state].
    Every function of the script is a computation in a small state and
    exception monad: an assignment to a global is kept when a later
    statement raises, as in Python.  The threads of the script (the audio
    driver, the hotkey listener, the timers) are interleaved at the
    granularity of whole calls. *)

From Stdlib Require Import List Arith Bool Lia ZArith NArith.
From Stdlib Require Strings.String.
Import ListNotations.

Set Implicit Arguments.

(** ** Python values and outcomes *)

Inductive exn : Set :=
| ValueError
| ZeroDivisionError
| OverflowError.

(** What a call does: it returns, it raises, or it waits for ever
    ([Queue.put] on a full queue, [Queue.get] on an empty one). *)
Inductive outcome (A : Type) : Type :=
| Ret (a : A)
| Raise (e : exn)
| Blocks.

Arguments Ret {A} a.
Arguments Raise {A} e.
Arguments Blocks {A}.

(** [a % b] on non-negative Python integers. *)
Definition py_mod (a b : nat) : outcome nat :=
  if b =? 0 then Raise ZeroDivisionError else Ret (a mod b).

(** The integers Python cannot convert to a float: those that round, to 53
    bits and half to even, to 2^1024 or beyond. *)
Definition int_to_float_overflows (n : Z) : bool :=
  (2 ^ 1024 - 2 ^ 970 <=? Z.abs n)%Z.

(** [ms / 1000.0] for an integer [ms]: the integer is converted to a float
    first ("int too large to convert to float"). The quotient is kept as
    the number of milliseconds it stands for. *)
Definition py_truediv_1000 (ms : Z) : outcome Z :=
  if int_to_float_overflows ms then Raise OverflowError else Ret ms.

(** ** queue.Queue *)

Module Queue.

(** [Queue.put(item)] with the default [block=True]: a queue built with
    [maxsize <= 0] is never full. *)
Definition put {A : Type} (maxsize : nat) (q : list A) (item : A)
  : outcome (list A) :=
  if (0 <? maxsize) && (maxsize <=? length q) then Blocks
  else Ret (q ++ [item]).

Definition empty {A : Type} (q : list A) : bool :=
  match q with
  | [] => true
  | _ :: _ => false
  end.

Definition get {A : Type} (q : list A) : outcome (A * list A) :=
  match q with
  | [] => Blocks
  | x :: q' => Ret (x, q')
  end.

End Queue.

(** ** numpy arrays of shape (rows, CHANNELS), as lists of rows *)

Definition SAMPLE_RATE : N := 44100%N.
Definition CHANNELS : nat := 1.

Section Numpy.

Context {frame : Type}.
Variable frame_add : frame -> frame -> frame.
Variable frame_zero : frame.

(** [a.size] *)
Definition np_size (a : list frame) : nat := length a * CHANNELS.

(** [a[lo:hi]] for non-negative bounds: clipped to the array. *)
Definition np_slice (lo hi : nat) (a : list frame) : list frame :=
  firstn (hi - lo) (skipn lo a).

(** [np.vstack(parts)]: refuses an empty sequence. *)
Definition np_vstack (parts : list (list frame)) : outcome (list frame) :=
  match parts with
  | [] => Raise ValueError
  | _ :: _ => Ret (concat parts)
  end.

(** [outdata[:] = src] for [outdata] of [n] rows: [src] has [n] rows, or
    one row that is broadcast. *)
Definition np_assign (n : nat) (src : list frame) : outcome (list frame) :=
  if length src =? n then Ret src
  else match src with
       | [x] => Ret (repeat x n)
       | _ => Raise ValueError
       end.

(** [outdata.fill(0)] *)
Definition np_fill (n : nat) : list frame := repeat frame_zero n.

Fixpoint add_rows (a b : list frame) : list frame :=
  match a, b with
  | x :: a', y :: b' => frame_add x y :: add_rows a' b'
  | _, _ => []
  end.

(** [a + b] with broadcasting along the rows. *)
Definition np_add (a b : list frame) : outcome (list frame) :=
  if length a =? length b then Ret (add_rows a b)
  else match a, b with
       | [x], _ => Ret (map (frame_add x) b)
       | _, [y] => Ret (map (fun x => frame_add x y) a)
       | _, _ => Raise ValueError
       end.

End Numpy.

(** ** Global state *)

(** The lines the script prints. *)
Inductive msg : Set :=
| MsgStatus                     (* the driver's status flags *)
| MsgRecordStarted              (* [Looper] Enregistrement demarre *)
| MsgRecordStopped (rows : nat) (* [Looper] Enr. arrete, duree: rows/SAMPLE_RATE *)
| MsgNoData                     (* [Looper] Aucune donnee enregistree *)
| MsgReset                      (* [Looper] Boucle reinitialisee *)
| MsgPlayback (resumed : bool)  (* [Looper] Playback repris / en pause *)
| MsgMonitor (enabled : bool)   (* [Looper] Retour voix active / desactive *)
| MsgTimedInvalid               (* [TimedRec] Duree invalide *)
| MsgTimedAlready               (* [TimedRec] Deja enregistrement *)
| MsgTimedStarted (ms : Z).     (* [TimedRec] Enregistrement pour ms ms demarre *)

(** [record_queue = queue.Queue()] and [monitor_queue = queue.Queue()]:
    both are built without a [maxsize]. *)
Definition record_queue_maxsize : nat := 0.
Definition monitor_queue_maxsize : nat := 0.

Section Engine.

Context {frame : Type}.
Variable frame_add : frame -> frame -> frame.
Variable frame_zero : frame.

Record state : Type := mkState {
  loop_buffer : list frame;
  record_queue : list (list frame);
  monitor_queue : list (list frame);
  is_recording : bool;
  is_playing : bool;
  monitor_enabled : bool;
  playback_index : nat;
  indicator_red : bool;      (* fill colour of the indicator: red or grey *)
  timers : list Z;           (* started threading.Timer objects, delay in ms *)
  console : list msg         (* what has been printed, oldest first *)
}.

Definition initial_state : state :=
  mkState [] [] [] false false false 0 false [] [].

Definition set_loop_buffer (v : list frame) (s : state) : state :=
  mkState v (record_queue s) (monitor_queue s) (is_recording s)
          (is_playing s) (monitor_enabled s) (playback_index s)
          (indicator_red s) (timers s) (console s).

Definition set_record_queue (v : list (list frame)) (s : state) : state :=
  mkState (loop_buffer s) v (monitor_queue s) (is_recording s)
          (is_playing s) (monitor_enabled s) (playback_index s)
          (indicator_red s) (timers s) (console s).

Definition set_monitor_queue (v : list (list frame)) (s : state) : state :=
  mkState (loop_buffer s) (record_queue s) v (is_recording s)
          (is_playing s) (monitor_enabled s) (playback_index s)
          (indicator_red s) (timers s) (console s).

Definition set_is_recording (v : bool) (s : state) : state :=
  mkState (loop_buffer s) (record_queue s) (monitor_queue s) v
          (is_playing s) (monitor_enabled s) (playback_index s)
          (indicator_red s) (timers s) (console s).

Definition set_is_playing (v : bool) (s : state) : state :=
  mkState (loop_buffer s) (record_queue s) (monitor_queue s)
          (is_recording s) v (monitor_enabled s) (playback_index s)
          (indicator_red s) (timers s) (console s).

Definition set_monitor_enabled (v : bool) (s : state) : state :=
  mkState (loop_buffer s) (record_queue s) (monitor_queue s)
          (is_recording s) (is_playing s) v (playback_index s)
          (indicator_red s) (timers s) (console s).

Definition set_playback_index (v : nat) (s : state) : state :=
  mkState (loop_buffer s) (record_queue s) (monitor_queue s)
          (is_recording s) (is_playing s) (monitor_enabled s) v
          (indicator_red s) (timers s) (console s).

Definition set_indicator_red (v : bool) (s : state) : state :=
  mkState (loop_buffer s) (record_queue s) (monitor_queue s)
          (is_recording s) (is_playing s) (monitor_enabled s)
          (playback_index s) v (timers s) (console s).

Definition set_timers (v : list Z) (s : state) : state :=
  mkState (loop_buffer s) (record_queue s) (monitor_queue s)
          (is_recording s) (is_playing s) (monitor_enabled s)
          (playback_index s) (indicator_red s) v (console s).

Definition set_console (v : list msg) (s : state) : state :=
  mkState (loop_buffer s) (record_queue s) (monitor_queue s)
          (is_recording s) (is_playing s) (monitor_enabled s)
          (playback_index s) (indicator_red s) (timers s) v.

(** ** The monad of the script's functions *)

Definition M (A : Type) : Type := state -> state * outcome A.

Definition ret {A : Type} (a : A) : M A := fun s => (s, Ret a).

Definition bind {A B : Type} (c : M A) (k : A -> M B) : M B :=
  fun s =>
    match c s with
    | (s', Ret a) => k a s'
    | (s', Raise e) => (s', Raise e)
    | (s', Blocks) => (s', Blocks)
    end.

Definition get : M state := fun s => (s, Ret s).

Definition modify (f : state -> state) : M unit := fun s => (f s, Ret tt).

Definition lift {A : Type} (o : outcome A) : M A := fun s => (s, o).

Definition print (m : msg) : M unit :=
  modify (fun s => set_console (console s ++ [m]) s).

Notation "x <- c ;; k" := (bind c (fun x => k))
  (at level 61, c at next level, right associativity).
Notation "c ;;; k" := (bind c (fun _ => k))
  (at level 61, right associativity).

(** ** audio_callback *)

Definition audio_callback (indata : list frame) (frames : nat)
           (status : bool) : M (list frame) :=
  (if status then print MsgStatus else ret tt) ;;;
  s <- get ;;
  if is_recording s then
    q <- lift (Queue.put record_queue_maxsize (record_queue s) indata) ;;
    modify (set_record_queue q) ;;;
    ret (np_fill frame_zero frames)
  else if is_playing s && (0 <? np_size (loop_buffer s)) then
    let length := length (loop_buffer s) in
    let end_ := playback_index s + frames in
    chunk <- (if end_ <=? length
              then ret (np_slice (playback_index s) end_ (loop_buffer s))
              else lift (np_vstack
                           [np_slice (playback_index s) length (loop_buffer s);
                            np_slice 0 (end_ - length) (loop_buffer s)])) ;;
    idx <- lift (py_mod end_ length) ;;
    modify (set_playback_index idx) ;;;
    outdata <- lift (np_assign frames chunk) ;;
    (if monitor_enabled s then
       mixed <- lift (np_add frame_add chunk indata) ;;
       q <- lift (Queue.put monitor_queue_maxsize (monitor_queue s) mixed) ;;
       modify (set_monitor_queue q)
     else ret tt) ;;;
    ret outdata
  else
    outdata <- lift (np_assign frames indata) ;;
    (if monitor_enabled s then
       q <- lift (Queue.put monitor_queue_maxsize (monitor_queue s) indata) ;;
       modify (set_monitor_queue q)
     else ret tt) ;;;
    ret outdata.

(** ** Control functions *)

(** The indicator's colour follows [is_recording]; the canvas call itself
    is taken to succeed. *)
Definition update_indicator : M unit :=
  modify (fun s => set_indicator_red (is_recording s) s).

(** [while not record_queue.empty(): frames.append(record_queue.get())]:
    what is left of the queue, and [frames]. *)
Fixpoint drain_loop (q : list (list frame)) (frames : list (list frame))
  : list (list frame) * list (list frame) :=
  match q with
  | [] => (q, frames)
  | item :: q' => drain_loop q' (frames ++ [item])
  end.

(** [while not record_queue.empty(): record_queue.get()] *)
Fixpoint discard_loop (q : list (list frame)) : list (list frame) :=
  match q with
  | [] => q
  | _ :: q' => discard_loop q'
  end.

Definition toggle_record : M unit :=
  s <- get ;;
  if negb (is_recording s) then
    modify (set_is_recording true) ;;;
    modify (set_is_playing false) ;;;
    update_indicator ;;;
    print MsgRecordStarted
  else
    modify (set_is_recording false) ;;;
    let (q, frames) := drain_loop (record_queue s) [] in
    modify (set_record_queue q) ;;;
    (match frames with
     | _ :: _ =>
         buf <- lift (np_vstack frames) ;;
         modify (set_loop_buffer buf) ;;;
         modify (set_playback_index 0) ;;;
         modify (set_is_playing true) ;;;
         print (MsgRecordStopped (length buf))
     | [] => print MsgNoData
     end) ;;;
    update_indicator.

Definition reset_loop : M unit :=
  modify (set_loop_buffer []) ;;;
  modify (set_is_recording false) ;;;
  modify (fun s => set_record_queue (discard_loop (record_queue s)) s) ;;;
  modify (set_is_playing false) ;;;
  modify (set_playback_index 0) ;;;
  update_indicator ;;;
  print MsgReset.

Definition toggle_playback : M unit :=
  modify (fun s => set_is_playing (negb (is_playing s)) s) ;;;
  s <- get ;;
  print (MsgPlayback (is_playing s)).

Definition toggle_monitor : M unit :=
  modify (fun s => set_monitor_enabled (negb (monitor_enabled s)) s) ;;;
  s <- get ;;
  print (MsgMonitor (monitor_enabled s)).

(** [duration_var] is what the entry field holds: [None] when
    [int(duration_var.get())] raises. [sec = ms / 1000.0] is outside the
    [try]: its OverflowError leaves the function. *)
Definition record_for_duration (duration_var : option Z) : M unit :=
  match duration_var with
  | None => print MsgTimedInvalid
  | Some ms =>
      sec <- lift (py_truediv_1000 ms) ;;
      s <- get ;;
      if is_recording s then print MsgTimedAlready
      else
        modify (fun s => set_record_queue (discard_loop (record_queue s)) s) ;;;
        modify (set_playback_index 0) ;;;
        modify (set_is_recording true) ;;;
        modify (set_is_playing false) ;;;
        update_indicator ;;;
        print (MsgTimedStarted ms) ;;;
        modify (fun s => set_timers (timers s ++ [sec]) s)
  end.

(** What the entry field holds can be divided by [1000.0]; a field that
    holds no integer never gets that far. *)
Definition duration_converts (duration_var : option Z) : bool :=
  match duration_var with
  | Some ms => negb (int_to_float_overflows ms)
  | None => true
  end.

(** ** Timers and interleavings *)

Fixpoint remove_nth {A : Type} (i : nat) (l : list A) : list A :=
  match i, l with
  | _, [] => []
  | 0, _ :: l' => l'
  | S i', x :: l' => x :: remove_nth i' l'
  end.

(** The [i]-th started timer expires: [threading.Timer(sec, toggle_record)]
    calls [toggle_record], once.  Nothing happens when there is no such
    timer. *)
Definition timer_fire (i : nat) : M unit :=
  s <- get ;;
  match nth_error (timers s) i with
  | None => ret tt
  | Some _ =>
      modify (set_timers (remove_nth i (timers s))) ;;;
      toggle_record
  end.

(** What the driver, the buttons, the hotkeys and the timers can do. *)
Inductive op : Type :=
| AudioCallback (indata : list frame) (frames : nat) (status : bool)
| ToggleRecord
| ResetLoop
| TogglePlayback
| ToggleMonitor
| RecordForDuration (duration_var : option Z)
| TimerFire (i : nat).

Definition run_op (o : op) : M unit :=
  match o with
  | AudioCallback indata frames status =>
      audio_callback indata frames status ;;; ret tt
  | ToggleRecord => toggle_record
  | ResetLoop => reset_loop
  | TogglePlayback => toggle_playback
  | ToggleMonitor => toggle_monitor
  | RecordForDuration d => record_for_duration d
  | TimerFire i => timer_fire i
  end.

(** The state a call leaves behind, whether it returned or raised. *)
Definition exec (o : op) (s : state) : state := fst (run_op o s).

Definition run (ops : list op) (s : state) : state :=
  fold_left (fun st o => exec o st) ops s.

(** The control operations of the looper. *)
Definition is_control (o : op) : bool :=
  match o with
  | ToggleRecord | ResetLoop | TogglePlayback | ToggleMonitor
  | RecordForDuration _ => true
  | AudioCallback _ _ _ | TimerFire _ => false
  end.

(** The chunk the playback branch of [audio_callback] reads. *)
Definition playback_chunk (buf : list frame) (cursor frames : nat)
  : list frame :=
  if cursor + frames <=? length buf
  then np_slice cursor (cursor + frames) buf
  else np_slice cursor (length buf) buf
       ++ np_slice 0 (cursor + frames - length buf) buf.

(** Rows [cursor, cursor + frames) of the loop read circularly: row [i] of
    the output is row [(cursor + i) mod L] of the loop. *)
Definition circular_read (buf : list frame) (cursor frames : nat)
  : list (option frame) :=
  map (fun i => nth_error buf ((cursor + i) mod length buf)) (seq 0 frames).

(** The blocks the driver delivers while nothing else happens. *)
Definition callback_ops (blocks : list (list frame * nat * bool)) : list op :=
  map (fun b => AudioCallback (fst (fst b)) (snd (fst b)) (snd b)) blocks.

(** A [toggle_playback] that is only issued when not recording. *)
Definition guarded (o : op) (s : state) : bool :=
  match o with
  | TogglePlayback => negb (is_recording s)
  | _ => true
  end.

Fixpoint all_guarded (ops : list op) (s : state) : bool :=
  match ops with
  | [] => true
  | o :: ops' => guarded o s && all_guarded ops' (exec o s)
  end.

(** [is_recording] and [is_playing] are not both true. *)
Definition exclusive (s : state) : Prop :=
  is_recording s && is_playing s = false.

End Engine.

Arguments state : clear implicits.
Arguments op : clear implicits.

(** ** Worked states, with integer samples *)

Definition run_mono : list (op nat) -> state nat -> state nat :=
  run Nat.add 0.

(** A loop of 768 rows (row [i] holds [i]) playing from row 700. *)
Definition loop_768_at_700 : state nat :=
  mkState (seq 0 768) [] [] false true false 700 false [] [].

(** A loop of two rows playing from row 0. *)
Definition loop_2_at_0 : state nat :=
  mkState [10; 11] [] [] false true false 0 false [] [].

(** A loop of four rows playing from row 3, with monitoring on and two
    blocks waiting in the monitor queue. *)
Definition loop_4_at_3 : state nat :=
  mkState [10; 11; 12; 13] [] [[1]; [2]] false true true 3 false [] [].

(** Recording, with two captured blocks, over an older loop. *)
Definition recording_two_blocks : state nat :=
  mkState [7; 8; 9] [[1; 2]; [3; 4]] [] true false false 2 true [] [].

(** Record pressed, then pause pressed, before any block was captured. *)
Definition record_then_pause : state nat :=
  run_mono [ToggleRecord; TogglePlayback] initial_state.

(** Playing an empty loop, with monitoring on. *)
Definition empty_loop_playing : state nat :=
  mkState [] [] [] false true true 0 false [] [].

(** A timed recording of 500 ms, one captured block, then a manual stop
    before the timer expires. *)
Definition timed_then_manual_stop : state nat :=
  run_mono [RecordForDuration (Some 500%Z); AudioCallback [1; 2] 2 false;
            ToggleRecord] initial_state.

(** ** Runs of audio blocks *)

Section Runs.

Context {frame : Type}.
Variable frame_add : frame -> frame -> frame.
Variable frame_zero : frame.

(** What the driver gets back for each block of a run of blocks. *)
Fixpoint callback_outputs (blocks : list (list frame * nat * bool))
         (s : state frame) : list (outcome (list frame)) :=
  match blocks with
  | [] => []
  | b :: blocks' =>
      let r := audio_callback frame_add frame_zero
                              (fst (fst b)) (snd (fst b)) (snd b) s in
      snd r :: callback_outputs blocks' (fst r)
  end.

(** The input blocks of a run, and the number of rows asked for. *)
Definition block_inputs (blocks : list (list frame * nat * bool))
  : list (list frame) :=
  map (fun b => fst (fst b)) blocks.

Definition total_frames (blocks : list (list frame * nat * bool)) : nat :=
  list_sum (map (fun b => snd (fst b)) blocks).

(** A block as the driver delivers it ([frames] rows of input), no longer
    than [limit] rows. *)
Definition well_sized (limit : nat) (b : list frame * nat * bool) : Prop :=
  length (fst (fst b)) = snd (fst b) /\ snd (fst b) <= limit.

(** A block as the driver delivers it: [frames] rows of input. *)
Definition as_delivered (b : list frame * nat * bool) : Prop :=
  length (fst (fst b)) = snd (fst b).

(** The cursor points into the loop, or is 0. *)
Definition cursor_in_bounds (s : state frame) : Prop :=
  playback_index s = 0 \/ playback_index s < length (loop_buffer s).

(** The capture queue holds blocks only while recording. *)
Definition queue_idle (s : state frame) : Prop :=
  is_recording s = true \/ record_queue s = [].

End Runs.

(** * Device selection *)

Module Devices.

Import String.

(** An entry of [sd.query_devices()]; [sd_hostapi] indexes
    [sd.query_hostapis()]. *)
Record sd_device : Type := mkSdDevice {
  sd_name : string;
  sd_hostapi : nat;
  sd_max_input_channels : nat;
  sd_max_output_channels : nat
}.

(** An entry of [device_list]. *)
Record device : Type := mkDevice {
  index : nat;
  name : string;
  hostapi : string;
  max_input_channels : nat;
  max_output_channels : nat
}.

(** The loop that fills [device_list], from position [idx] on; [None] when
    a host API index is out of range (IndexError). *)
Fixpoint enumerate_devices (idx : nat) (hostapis : list string)
         (devices : list sd_device) : option (list device) :=
  match devices with
  | [] => Some []
  | dev :: devices' =>
      match nth_error hostapis (sd_hostapi dev) with
      | None => None
      | Some host =>
          match enumerate_devices (S idx) hostapis devices' with
          | None => None
          | Some rest =>
              Some (mkDevice idx (sd_name dev) host
                             (sd_max_input_channels dev)
                             (sd_max_output_channels dev) :: rest)
          end
      end
  end.

Definition build_device_list (hostapis : list string)
           (devices : list sd_device) : option (list device) :=
  enumerate_devices 0 hostapis devices.

(** [x in l] for a string and a list of strings. *)
Definition str_in (x : string) (l : list string) : bool :=
  existsb (String.eqb x) l.

(** [list(dict.fromkeys(keys))]: the keys in the order of their first
    occurrence. *)
Definition dict_fromkeys (keys : list string) : list string :=
  fold_left (fun d k => if str_in k d then d else (d ++ [k])%list) keys [].

(** [next(d for d in device_list if d['name'] == nm)]; [None] is
    StopIteration. *)
Definition next_named (device_list : list device) (nm : string)
  : option device :=
  find (fun d => String.eqb (name d) nm) device_list.

(** The text and the values of the three comboboxes. *)
Record combos : Type := mkCombos {
  input_value : string;
  loop_values : list string;
  loop_value : string;
  monitor_values : list string;
  monitor_value : string
}.

(** [opts[0] if opts else ''] *)
Definition first_or_empty (opts : list string) : string :=
  match opts with
  | x :: _ => x
  | [] => EmptyString
  end.

Definition update_output_options (device_list : list device) (g : combos)
  : option combos :=
  match next_named device_list (input_value g) with
  | None => None
  | Some d0 =>
      let host := hostapi d0 in
      let loop_opts :=
        dict_fromkeys
          (map name
               (filter (fun d => String.eqb (hostapi d) host
                                 && (0 <? max_output_channels d))
                       device_list)) in
      let loop_value' :=
        if negb (str_in (loop_value g) loop_opts)
        then first_or_empty loop_opts else loop_value g in
      let mon_opts := loop_opts in
      let monitor_value' :=
        if negb (str_in (monitor_value g) mon_opts)
        then first_or_empty mon_opts else monitor_value g in
      Some (mkCombos (input_value g) loop_opts loop_value'
                     mon_opts monitor_value')
  end.

(** The three device indices [apply_settings] computes before it opens the
    streams: input, loop, monitor. [None] when one of the three [next]
    calls raises StopIteration. *)
Definition device_index (device_list : list device) (nm : string)
  : option nat :=
  option_map index (next_named device_list nm).

Definition apply_settings_indices (device_list : list device) (g : combos)
  : option (nat * nat * nat) :=
  match device_index device_list (input_value g) with
  | None => None
  | Some input_idx =>
      match device_index device_list (loop_value g) with
      | None => None
      | Some loop_idx =>
          match device_index device_list (monitor_value g) with
          | None => None
          | Some monitor_idx => Some (input_idx, loop_idx, monitor_idx)
          end
      end
  end.

(** A device the loop can be played on, next to the input device named
    [input]: on the host API of the first device of that name, with output
    channels. *)
Definition output_of_host (device_list : list device) (input : string)
           (d : device) : Prop :=
  In d device_list /\
  0 < max_output_channels d /\
  exists d0, next_named device_list input = Some d0 /\
             hostapi d = hostapi d0.

(** ** Worked device lists *)

Local Open Scope string_scope.

Definition two_hostapis : list string := ["ALSA"; "JACK"].

(** A microphone and a headset on the first host API, a sink on the
    second; every name is used once. *)
Definition three_devices : list sd_device :=
  [mkSdDevice "mic" 0 2 0; mkSdDevice "headset" 0 1 2;
   mkSdDevice "sink" 1 0 2].

Definition three_listed : list device :=
  [mkDevice 0 "mic" "ALSA" 2 0; mkDevice 1 "headset" "ALSA" 1 2;
   mkDevice 2 "sink" "JACK" 0 2].

(** A microphone alone on its host API. *)
Definition lone_mic : list device := [mkDevice 0 "mic" "ALSA" 2 0].

(** The comboboxes before the first update: the input is chosen, the other
    two are empty. *)
Definition fresh_combos : combos := mkCombos "mic" [] "" [] "".

End Devices.

(** * Saved settings *)

Module Config.

Import String.
Local Open Scope string_scope.

Section Json.

(** What JSON numbers are is of no matter here. *)
Variable number : Type.

Local Unset Elimination Schemes.

(** What [json.load] returns; a dict is the list of its items. *)
Inductive json : Type :=
| JNull
| JBool (b : bool)
| JNum (x : number)
| JStr (s : string)
| JArr (items : list json)
| JObj (items : list (string * json)).

Local Set Elimination Schemes.

(** [d.get(key, default)] *)
Fixpoint dict_get (d : list (string * json)) (key : string) (default : json)
  : json :=
  match d with
  | [] => default
  | (k, v) :: d' => if String.eqb k key then v else dict_get d' key default
  end.

(** [config.json]: absent, present but refused by [json.load], or present
    with a JSON value. *)
Inductive config_file : Type :=
| NoFile
| Unreadable
| Parsed (v : json).

(** The module variables the loading block assigns. A [last_*] name that
    was never assigned is [None]; Python's [None] is [Some JNull]. *)
Record settings : Type := mkSettings {
  record_key : json;
  reset_key : json;
  pause_key : json;
  timed_key : json;
  last_input : option json;
  last_loop : option json;
  last_monitor : option json;
  load_failed : bool        (* the failure message was printed *)
}.

Definition default_record_key : json := JStr "F9".
Definition default_reset_key : json := JStr "F10".
Definition default_pause_key : json := JStr "F11".
Definition default_timed_key : json := JStr "F12".

(** The loading block of looper_v0.6.py. Every value but a dict has no
    [get]: the first statement after [json.load] raises, and the handler
    only prints. *)
Definition load_config (f : config_file) : settings :=
  match f with
  | NoFile =>
      mkSettings default_record_key default_reset_key default_pause_key
                 default_timed_key (Some JNull) (Some JNull) (Some JNull)
                 false
  | Parsed (JObj cfg) =>
      mkSettings (dict_get cfg "record_key" default_record_key)
                 (dict_get cfg "reset_key" default_reset_key)
                 (dict_get cfg "pause_key" default_pause_key)
                 (dict_get cfg "timed_key" default_timed_key)
                 (Some (dict_get cfg "input_name" JNull))
                 (Some (dict_get cfg "loop_name" JNull))
                 (Some (dict_get cfg "monitor_name" JNull))
                 false
  | Unreadable | Parsed _ =>
      mkSettings default_record_key default_reset_key default_pause_key
                 default_timed_key None None None true
  end.

(** The dict [save_and_exit] of looper_v0.6.py dumps, from the texts of the
    entry fields and of the comboboxes. *)
Definition save_config (record_key_var reset_key_var pause_key_var
                        timed_key_var input_name loop_name monitor_name
                        : string) : json :=
  JObj [("record_key", JStr record_key_var);
        ("reset_key", JStr reset_key_var);
        ("pause_key", JStr pause_key_var);
        ("timed_key", JStr timed_key_var);
        ("input_name", JStr input_name);
        ("loop_name", JStr loop_name);
        ("monitor_name", JStr monitor_name)].

(** The dict [save_and_exit] of looper_v0.4.py dumps. *)
Definition save_config_v04 (record_key_var reset_key_var pause_key_var
                            input_name loop_name monitor_name : string)
  : json :=
  JObj [("record_key", JStr record_key_var);
        ("reset_key", JStr reset_key_var);
        ("pause_key", JStr pause_key_var);
        ("input_name", JStr input_name);
        ("loop_name", JStr loop_name);
        ("monitor_name", JStr monitor_name)].

End Json.

End Config.

(** * Properties *)

Section Properties.

Context {frame : Type}.
Variable frame_add : frame -> frame -> frame.
Variable frame_zero : frame.

Abbreviation state := (state frame).
Abbreviation op := (op frame).
Abbreviation callback := (audio_callback frame_add frame_zero).

(** ** The two queue loops *)

(** One turn of each loop, in terms of the queue's methods. *)
Lemma drain_loop_turn (q frames : list (list frame)) :
  drain_loop q frames =
  if Queue.empty q then (q, frames)
  else match Queue.get q with
       | Ret (item, q') => drain_loop q' (frames ++ [item])
       | _ => (q, frames)
       end.
Proof. destruct q; reflexivity. Qed.

Lemma discard_loop_turn (q : list (list frame)) :
  discard_loop q =
  if Queue.empty q then q
  else match Queue.get q with
       | Ret (_, q') => discard_loop q'
       | _ => q
       end.
Proof. destruct q; reflexivity. Qed.

Lemma drain_loop_all (q frames : list (list frame)) :
  drain_loop q frames = ([], frames ++ q).
Proof.
  revert frames.
  induction q as [|item q IH]; intros frames; simpl.
  - now rewrite app_nil_r.
  - rewrite IH, <- app_assoc. reflexivity.
Qed.

Lemma discard_loop_all (q : list (list frame)) : discard_loop q = [].
Proof. induction q as [|item q IH]; simpl; auto. Qed.

(** ** Slices and broadcasting *)

Lemma np_slice_length (lo hi : nat) (a : list frame) :
  length (np_slice lo hi a) = Nat.min (hi - lo) (length a - lo).
Proof. unfold np_slice. now rewrite length_firstn, length_skipn. Qed.

Lemma np_slice_nth_error (lo hi i : nat) (a : list frame) :
  i < hi - lo ->
  nth_error (np_slice lo hi a) i = nth_error a (lo + i).
Proof.
  intros Hi. unfold np_slice.
  rewrite nth_error_firstn.
  destruct (Nat.ltb_spec i (hi - lo)); [|lia].
  apply nth_error_skipn.
Qed.

Lemma np_assign_same (n : nat) (src : list frame) :
  length src = n -> np_assign n src = Ret src.
Proof.
  intros H. unfold np_assign.
  now rewrite (proj2 (Nat.eqb_eq _ _) H).
Qed.

Lemma np_assign_mismatch (n : nat) (src : list frame) :
  length src <> n -> length src <> 1 ->
  np_assign n src = Raise ValueError.
Proof.
  intros Hn H1. unfold np_assign.
  rewrite (proj2 (Nat.eqb_neq _ _) Hn).
  destruct src as [|x [|y src]]; simpl in *; congruence.
Qed.

Lemma np_add_same (a b : list frame) :
  length a = length b -> np_add frame_add a b = Ret (add_rows frame_add a b).
Proof.
  intros H. unfold np_add.
  now rewrite (proj2 (Nat.eqb_eq _ _) H).
Qed.

Lemma add_rows_length (a b : list frame) :
  length a = length b -> length (add_rows frame_add a b) = length a.
Proof.
  revert b. induction a as [|x a IH]; intros [|y b] H; simpl in *;
    try congruence.
  f_equal. apply IH. congruence.
Qed.

Lemma put_unbounded {A : Type} (q : list A) (item : A) :
  Queue.put 0 q item = Ret (q ++ [item]).
Proof. reflexivity. Qed.

(** Unfolds the monad of a call applied to a state. *)
Ltac run_monad :=
  unfold run_op, timer_fire, audio_callback,
    toggle_record, reset_loop, toggle_playback, toggle_monitor,
    record_for_duration, update_indicator, print, bind, ret, get, modify,
    lift; cbn [fst snd].


(** ** reset_loop *)

(** C8. Reset is absorbing: from every state, [reset_loop] returns and
    leaves an empty loop buffer (length 0), an empty capture queue, the
    cursor at 0 and both [is_recording] and [is_playing] false. *)
Theorem reset_loop_absorbing (s : state) :
  snd (reset_loop s) = Ret tt /\
  loop_buffer (fst (reset_loop s)) = [] /\
  length (loop_buffer (fst (reset_loop s))) = 0 /\
  record_queue (fst (reset_loop s)) = [] /\
  playback_index (fst (reset_loop s)) = 0 /\
  is_recording (fst (reset_loop s)) = false /\
  is_playing (fst (reset_loop s)) = false.
Proof.
  run_monad. cbn. rewrite discard_loop_all. repeat split.
Qed.

(** ** toggle_playback and toggle_monitor *)

(** C6, as the code has it. [toggle_playback] flips [is_playing] in every
    state, recording or not, prints the new playback state, and changes
    nothing else. *)
Theorem toggle_playback_flips (s : state) :
  snd (toggle_playback s) = Ret tt /\
  is_playing (fst (toggle_playback s)) = negb (is_playing s) /\
  console (fst (toggle_playback s)) =
    console s ++ [MsgPlayback (negb (is_playing s))] /\
  is_recording (fst (toggle_playback s)) = is_recording s /\
  loop_buffer (fst (toggle_playback s)) = loop_buffer s /\
  playback_index (fst (toggle_playback s)) = playback_index s /\
  record_queue (fst (toggle_playback s)) = record_queue s /\
  monitor_queue (fst (toggle_playback s)) = monitor_queue s /\
  monitor_enabled (fst (toggle_playback s)) = monitor_enabled s /\
  indicator_red (fst (toggle_playback s)) = indicator_red s /\
  timers (fst (toggle_playback s)) = timers s.
Proof.
  run_monad. cbn. repeat split.
Qed.

(** ** audio_callback on an empty loop *)

(** C3. With an empty loop buffer, [is_playing] true and [is_recording]
    false, the callback returns (no exception: no read out of bounds, no
    modulo by zero) with the output equal to the input block, leaves the
    cursor alone, and pushes the input block to the monitor queue exactly
    when monitoring is enabled. *)
Theorem callback_empty_loop_passthrough
        (s : state) (indata : list frame) (frames : nat) (status : bool) :
  loop_buffer s = [] ->
  is_playing s = true ->
  is_recording s = false ->
  length indata = frames ->
  snd (callback indata frames status s) = Ret indata /\
  playback_index (fst (callback indata frames status s)) = playback_index s /\
  loop_buffer (fst (callback indata frames status s)) = [] /\
  monitor_queue (fst (callback indata frames status s)) =
    (if monitor_enabled s then monitor_queue s ++ [indata]
     else monitor_queue s).
Proof.
  intros Hbuf Hplay Hrec Hlen.
  run_monad.
  destruct status; cbn; rewrite Hrec, Hplay, Hbuf; cbn;
    rewrite (np_assign_same _ Hlen); destruct (monitor_enabled s); cbn;
    repeat split; auto.
Qed.

(** ** audio_callback while playing *)

Lemma np_size_pos (a : list frame) :
  0 < length a -> (0 <? np_size a) = true.
Proof.
  intros H. apply Nat.ltb_lt. unfold np_size, CHANNELS. lia.
Qed.

Lemma py_mod_pos (a b : nat) : 0 < b -> py_mod a b = Ret (a mod b).
Proof.
  intros H. unfold py_mod.
  destruct (Nat.eqb_spec b 0); [lia | reflexivity].
Qed.

Lemma playback_chunk_length (buf : list frame) (cursor frames : nat) :
  cursor < length buf ->
  length (playback_chunk buf cursor frames) =
    Nat.min frames (2 * length buf - cursor).
Proof.
  intros Hc. unfold playback_chunk.
  destruct (Nat.leb_spec (cursor + frames) (length buf)).
  - rewrite np_slice_length. lia.
  - rewrite length_app, !np_slice_length. lia.
Qed.

(** The playback branch up to the write of [outdata]: the cursor is
    advanced first, then the chunk is assigned. *)
Lemma callback_playing_unfold
      (s : state) (indata : list frame) (frames : nat) :
  is_recording s = false ->
  is_playing s = true ->
  0 < length (loop_buffer s) ->
  callback indata frames false s =
    let chunk := playback_chunk (loop_buffer s) (playback_index s) frames in
    let s1 := set_playback_index
                ((playback_index s + frames) mod length (loop_buffer s)) s in
    match np_assign frames chunk with
    | Ret outdata =>
        if monitor_enabled s then
          match np_add frame_add chunk indata with
          | Ret mixed =>
              (set_monitor_queue (monitor_queue s ++ [mixed]) s1, Ret outdata)
          | Raise e => (s1, Raise e)
          | Blocks => (s1, Blocks)
          end
        else (s1, Ret outdata)
    | Raise e => (s1, Raise e)
    | Blocks => (s1, Blocks)
    end.
Proof.
  intros Hrec Hplay Hlen.
  run_monad. cbv beta iota zeta.
  rewrite Hrec, Hplay, (np_size_pos _ Hlen). cbv beta iota.
  unfold playback_chunk.
  destruct (playback_index s + frames <=? length (loop_buffer s));
    cbv beta iota; unfold np_vstack, concat; rewrite ?app_nil_r;
    rewrite (py_mod_pos _ Hlen); cbv beta iota;
    (destruct (np_assign frames _); [|reflexivity|reflexivity]);
    (destruct (monitor_enabled s); [|reflexivity]);
    (destruct (np_add frame_add _ indata); reflexivity).
Qed.

Lemma callback_status (s : state) (indata : list frame) (frames : nat) :
  callback indata frames true s =
  callback indata frames false (set_console (console s ++ [MsgStatus]) s).
Proof. reflexivity. Qed.

Lemma playback_chunk_circular (buf : list frame) (cursor frames : nat) :
  cursor < length buf ->
  cursor + frames <= 2 * length buf ->
  map Some (playback_chunk buf cursor frames) =
  circular_read buf cursor frames.
Proof.
  intros Hc Hn.
  apply nth_error_ext. intros i.
  unfold circular_read.
  rewrite !nth_error_map.
  destruct (Nat.lt_ge_cases i frames) as [Hi|Hi].
  - rewrite nth_error_seq.
    destruct (Nat.ltb_spec i frames); [|lia]. cbn [option_map Nat.add].
    assert (Hsome : forall k, k < length buf ->
              option_map Some (nth_error buf k) = Some (nth_error buf k)).
    { intros k Hk.
      destruct (nth_error buf k) eqn:E; [reflexivity|].
      apply nth_error_None in E. lia. }
    unfold playback_chunk.
    destruct (Nat.leb_spec (cursor + frames) (length buf)).
    + rewrite np_slice_nth_error by lia.
      rewrite Nat.mod_small by lia. apply Hsome. lia.
    + destruct (Nat.lt_ge_cases i (length buf - cursor)) as [Hlo|Hhi].
      * rewrite nth_error_app1 by (rewrite np_slice_length; lia).
        rewrite np_slice_nth_error by lia.
        rewrite Nat.mod_small by lia. apply Hsome. lia.
      * rewrite nth_error_app2 by (rewrite np_slice_length; lia).
        rewrite np_slice_length.
        replace (Nat.min (length buf - cursor) (length buf - cursor))
          with (length buf - cursor) by lia.
        rewrite np_slice_nth_error by lia.
        replace ((cursor + i) mod length buf)
          with (0 + (i - (length buf - cursor))).
        { apply Hsome. lia. }
        apply Nat.mod_unique with (q := 1); lia.
  - rewrite (proj2 (nth_error_None _ _)).
    + rewrite (proj2 (nth_error_None _ _)); [reflexivity|].
      now rewrite length_seq.
    + rewrite playback_chunk_length by assumption. lia.
Qed.

(** X8. Within one wrap of the loop, the playback branch returns the rows
    [cursor, cursor + frames) read circularly and advances the cursor
    modulo the loop length. *)
Lemma callback_playing_single_wrap
      (s : state) (indata : list frame) (frames : nat) (status : bool) :
  is_recording s = false ->
  is_playing s = true ->
  playback_index s < length (loop_buffer s) ->
  playback_index s + frames <= 2 * length (loop_buffer s) ->
  length indata = frames ->
  snd (callback indata frames status s) =
    Ret (playback_chunk (loop_buffer s) (playback_index s) frames) /\
  map Some (playback_chunk (loop_buffer s) (playback_index s) frames) =
    circular_read (loop_buffer s) (playback_index s) frames /\
  playback_index (fst (callback indata frames status s)) =
    (playback_index s + frames) mod length (loop_buffer s).
Proof.
  intros Hrec Hplay Hc Hn Hlen.
  assert (Hchunk : length (playback_chunk (loop_buffer s)
                                          (playback_index s) frames) = frames).
  { rewrite playback_chunk_length by assumption. lia. }
  split; [|split; [now apply playback_chunk_circular|]].
  - destruct status; [rewrite callback_status|];
      rewrite callback_playing_unfold by (cbn; auto; lia);
      cbn zeta; cbn [loop_buffer playback_index monitor_enabled set_console];
      rewrite (np_assign_same _ Hchunk);
      (destruct (monitor_enabled s); [|reflexivity]);
      rewrite np_add_same by congruence; reflexivity.
  - destruct status; [rewrite callback_status|];
      rewrite callback_playing_unfold by (cbn; auto; lia);
      cbn zeta; cbn [loop_buffer playback_index monitor_enabled set_console];
      rewrite (np_assign_same _ Hchunk);
      (destruct (monitor_enabled s); [|reflexivity]);
      rewrite np_add_same by congruence; reflexivity.
Qed.

(** C1, where the code departs from it. When the block runs past the end
    of the loop by more than one loop length ([cursor + frames > 2 L]), the
    second slice is clipped to the loop, the chunk has fewer rows than the
    block, and the write of [outdata] raises ValueError; the cursor has
    already been advanced to [(cursor + frames) mod L]. *)
Theorem callback_multi_wrap_raises
        (s : state) (indata : list frame) (frames : nat) (status : bool) :
  is_recording s = false ->
  is_playing s = true ->
  playback_index s < length (loop_buffer s) ->
  2 * length (loop_buffer s) < playback_index s + frames ->
  snd (callback indata frames status s) = Raise ValueError /\
  playback_index (fst (callback indata frames status s)) =
    (playback_index s + frames) mod length (loop_buffer s).
Proof.
  intros Hrec Hplay Hc Hn.
  assert (Hchunk : np_assign frames
            (playback_chunk (loop_buffer s) (playback_index s) frames)
          = Raise ValueError).
  { apply np_assign_mismatch; rewrite playback_chunk_length by assumption;
      lia. }
  destruct status; [rewrite callback_status|];
    rewrite callback_playing_unfold by (cbn; auto; lia);
    cbn zeta; cbn [loop_buffer playback_index monitor_enabled set_console];
    rewrite Hchunk; split; reflexivity.
Qed.

(** ** toggle_record *)

(** [toggle_record] in closed form. *)
Lemma toggle_record_start (s : state) :
  is_recording s = false ->
  toggle_record s =
    (set_console (console s ++ [MsgRecordStarted])
       (set_indicator_red true
          (set_is_playing false (set_is_recording true s))),
     Ret tt).
Proof.
  intros H. run_monad. rewrite H. reflexivity.
Qed.

Lemma toggle_record_stop_data (s : state) :
  is_recording s = true ->
  record_queue s <> [] ->
  toggle_record s =
    (set_indicator_red false
       (set_console
          (console s ++ [MsgRecordStopped (length (concat (record_queue s)))])
          (set_is_playing true
             (set_playback_index 0
                (set_loop_buffer (concat (record_queue s))
                   (set_record_queue [] (set_is_recording false s)))))),
     Ret tt).
Proof.
  intros H Hq. run_monad. rewrite H. cbn [negb].
  rewrite drain_loop_all. cbn [app].
  destruct (record_queue s) as [|item q]; [congruence|]. reflexivity.
Qed.

Lemma toggle_record_stop_empty (s : state) :
  is_recording s = true ->
  record_queue s = [] ->
  toggle_record s =
    (set_indicator_red false
       (set_console (console s ++ [MsgNoData])
          (set_record_queue [] (set_is_recording false s))),
     Ret tt).
Proof.
  intros H Hq. run_monad. rewrite H, Hq. reflexivity.
Qed.

(** C2, as the code has it. Stopping a recording drains the capture queue.
    With captured blocks, the loop buffer becomes their concatenation in
    order, the cursor is 0, [is_recording] is false and [is_playing] is
    true. With an empty queue, "no data" is printed, [is_recording] is
    false, and [is_playing], the loop buffer and the cursor keep their
    values. *)
Theorem toggle_record_stop (s : state) :
  is_recording s = true ->
  snd (toggle_record s) = Ret tt /\
  record_queue (fst (toggle_record s)) = [] /\
  is_recording (fst (toggle_record s)) = false /\
  (record_queue s <> [] ->
   loop_buffer (fst (toggle_record s)) = concat (record_queue s) /\
   playback_index (fst (toggle_record s)) = 0 /\
   is_playing (fst (toggle_record s)) = true) /\
  (record_queue s = [] ->
   console (fst (toggle_record s)) = console s ++ [MsgNoData] /\
   is_playing (fst (toggle_record s)) = is_playing s /\
   loop_buffer (fst (toggle_record s)) = loop_buffer s /\
   playback_index (fst (toggle_record s)) = playback_index s).
Proof.
  intros H.
  destruct (record_queue s) as [|item q] eqn:Hq.
  - rewrite (toggle_record_stop_empty _ H Hq). cbn.
    repeat split; congruence.
  - assert (Hne : record_queue s <> []) by congruence.
    rewrite (toggle_record_stop_data _ H Hne). cbn. rewrite Hq.
    repeat split; congruence.
Qed.

(** ** record_for_duration *)

Lemma record_for_duration_overflow (s : state) (ms : Z) :
  int_to_float_overflows ms = true ->
  record_for_duration (Some ms) s = (s, Raise OverflowError).
Proof.
  intros H. run_monad. unfold py_truediv_1000. now rewrite H.
Qed.

(** C7, as the code has it. The entry point that refuses a second start is
    [record_for_duration]: while recording, with a duration that converts
    to a float, it only prints "already recording" (or "invalid duration"
    when the field does not hold an integer); the capture queue, the flags,
    the loop buffer, the cursor and the timers are unchanged. *)
Theorem record_for_duration_while_recording
        (s : state) (duration_var : option Z) :
  is_recording s = true ->
  duration_converts duration_var = true ->
  snd (record_for_duration duration_var s) = Ret tt /\
  fst (record_for_duration duration_var s) =
    set_console
      (console s ++ [match duration_var with
                     | Some _ => MsgTimedAlready
                     | None => MsgTimedInvalid
                     end]) s /\
  record_queue (fst (record_for_duration duration_var s)) = record_queue s /\
  is_recording (fst (record_for_duration duration_var s)) = true /\
  is_playing (fst (record_for_duration duration_var s)) = is_playing s /\
  loop_buffer (fst (record_for_duration duration_var s)) = loop_buffer s /\
  playback_index (fst (record_for_duration duration_var s)) =
    playback_index s /\
  timers (fst (record_for_duration duration_var s)) = timers s.
Proof.
  intros H Hconv. run_monad.
  destruct duration_var as [ms|].
  - cbn in Hconv. apply negb_true_iff in Hconv.
    unfold py_truediv_1000. rewrite Hconv, H. cbn. repeat split; auto.
  - cbn. repeat split; auto.
Qed.

(** ** Timers *)

(** C4, where the code departs from it. A timer that expires when the
    recording has already been stopped calls [toggle_record] on a state that
    is not recording: a new recording starts. *)
Theorem timer_fire_when_stopped (s : state) (i : nat) (ms : Z) :
  is_recording s = false ->
  nth_error (timers s) i = Some ms ->
  snd (timer_fire i s) = Ret tt /\
  is_recording (fst (timer_fire i s)) = true /\
  is_playing (fst (timer_fire i s)) = false /\
  console (fst (timer_fire i s)) = console s ++ [MsgRecordStarted].
Proof.
  intros Hrec Hi.
  unfold timer_fire, bind, get, modify. rewrite Hi.
  rewrite toggle_record_start by exact Hrec.
  cbn. repeat split.
Qed.

(** ** What every call of audio_callback preserves *)

(** Splits on the tests and on the outcomes of the numpy calls of the
    callback's body. *)
Ltac callback_cases s :=
  unfold audio_callback, print, bind, ret, get, modify, lift, Queue.put,
    record_queue_maxsize, monitor_queue_maxsize, np_vstack;
  change (0 <? 0) with false;
  cbn [fst snd is_recording is_playing monitor_enabled loop_buffer
       playback_index record_queue monitor_queue console timers
       indicator_red set_console set_record_queue set_monitor_queue
       set_playback_index andb];
  repeat match goal with
    | |- context [if is_recording s then _ else _] =>
        destruct (is_recording s) eqn:?
    | |- context [if is_playing s && ?b then _ else _] =>
        destruct (is_playing s && b) eqn:?
    | |- context [if monitor_enabled s then _ else _] =>
        destruct (monitor_enabled s) eqn:?
    | |- context [if ?a <=? ?b then _ else _] => destruct (a <=? b) eqn:?
    | |- context [py_mod ?a ?b] => destruct (py_mod a b) eqn:?
    | |- context [np_assign ?a ?b] => destruct (np_assign a b) eqn:?
    | |- context [np_add ?f ?a ?b] => destruct (np_add f a b) eqn:?
    end;
  cbn [fst snd is_recording is_playing monitor_enabled loop_buffer
       playback_index record_queue monitor_queue console timers
       indicator_red set_console set_record_queue set_monitor_queue
       set_playback_index].

Lemma callback_preserves
      (s : state) (indata : list frame) (frames : nat) (status : bool) :
  is_recording (fst (callback indata frames status s)) = is_recording s /\
  is_playing (fst (callback indata frames status s)) = is_playing s /\
  monitor_enabled (fst (callback indata frames status s)) =
    monitor_enabled s /\
  loop_buffer (fst (callback indata frames status s)) = loop_buffer s /\
  timers (fst (callback indata frames status s)) = timers s.
Proof.
  destruct status; [rewrite callback_status|];
    callback_cases s; repeat split; congruence.
Qed.

Lemma np_assign_returns_or_raises (n : nat) (src : list frame) :
  np_assign n src <> Blocks.
Proof.
  unfold np_assign. destruct (length src =? n); [discriminate|].
  destruct src as [|x [|y src]]; discriminate.
Qed.

Lemma np_add_returns_or_raises (a b : list frame) :
  np_add frame_add a b <> Blocks.
Proof.
  unfold np_add. destruct (length a =? length b); [discriminate|].
  destruct a as [|x [|x' a]]; try discriminate;
    destruct b as [|y [|y' b]]; discriminate.
Qed.

Lemma py_mod_returns_or_raises (a b : nat) : py_mod a b <> Blocks.
Proof. unfold py_mod. destruct (b =? 0); discriminate. Qed.

Lemma callback_never_blocks
      (s : state) (indata : list frame) (frames : nat) (status : bool) :
  snd (callback indata frames status s) <> Blocks.
Proof.
  destruct status; [rewrite callback_status|];
    callback_cases s; try discriminate;
    match goal with
    | H : np_assign _ _ = Blocks |- _ =>
        now apply np_assign_returns_or_raises in H
    | H : np_add _ _ _ = Blocks |- _ =>
        now apply np_add_returns_or_raises in H
    | H : py_mod _ _ = Blocks |- _ =>
        now apply py_mod_returns_or_raises in H
    end.
Qed.

(** The outcome of the callback depends on the flags, the loop and the
    cursor only. *)
Lemma callback_outcome_ext
      (s1 s2 : state) (indata : list frame) (frames : nat) (status : bool) :
  is_recording s1 = is_recording s2 ->
  is_playing s1 = is_playing s2 ->
  monitor_enabled s1 = monitor_enabled s2 ->
  loop_buffer s1 = loop_buffer s2 ->
  playback_index s1 = playback_index s2 ->
  snd (callback indata frames status s1) =
  snd (callback indata frames status s2).
Proof.
  intros Hr Hp Hm Hb Hc.
  destruct status; [rewrite !callback_status|];
    unfold audio_callback, print, bind, ret, get, modify, lift, Queue.put,
      record_queue_maxsize, monitor_queue_maxsize, np_vstack;
    change (0 <? 0) with false;
    cbn [fst snd is_recording is_playing monitor_enabled loop_buffer
         playback_index record_queue monitor_queue console set_console
         andb];
    rewrite Hr, Hp, Hm, Hb, Hc;
    callback_cases s2; reflexivity.
Qed.

(** While paused, the callback leaves the cursor where it is. *)
Lemma callback_paused_cursor
      (s : state) (indata : list frame) (frames : nat) (status : bool) :
  is_recording s = false ->
  is_playing s = false ->
  playback_index (fst (callback indata frames status s)) = playback_index s.
Proof.
  intros Hr Hp.
  destruct status; [rewrite callback_status|];
    callback_cases s; try congruence;
    rewrite Hp in *; cbn [andb] in *; congruence.
Qed.

Lemma run_app (ops1 ops2 : list op) (s : state) :
  run frame_add frame_zero (ops1 ++ ops2) s =
  run frame_add frame_zero ops2 (run frame_add frame_zero ops1 s).
Proof. unfold run. apply fold_left_app. Qed.

Lemma exec_callback
      (s : state) (indata : list frame) (frames : nat) (status : bool) :
  exec frame_add frame_zero (AudioCallback indata frames status) s =
  fst (callback indata frames status s).
Proof.
  unfold exec, run_op, bind.
  destruct (callback indata frames status s) as [s' [out|e|]]; reflexivity.
Qed.

Lemma paused_blocks_preserve
      (blocks : list (list frame * nat * bool)) (s : state) :
  is_recording s = false ->
  is_playing s = false ->
  let s' := run frame_add frame_zero (callback_ops blocks) s in
  is_recording s' = false /\
  is_playing s' = false /\
  monitor_enabled s' = monitor_enabled s /\
  loop_buffer s' = loop_buffer s /\
  playback_index s' = playback_index s.
Proof.
  revert s.
  induction blocks as [|[[indata frames] status] blocks IH]; intros s Hr Hp.
  - cbn. auto.
  - cbn [callback_ops map run fold_left fst snd].
    rewrite exec_callback.
    destruct (callback_preserves s indata frames status)
      as (Hr' & Hp' & Hm' & Hb' & _).
    pose proof (callback_paused_cursor s indata frames status Hr Hp) as Hc'.
    destruct (IH (fst (callback indata frames status s)))
      as (Hr2 & Hp2 & Hm2 & Hb2 & Hc2); try congruence.
    unfold callback_ops, run in *.
    repeat split; congruence.
Qed.

(** C10. [toggle_playback] (when not recording) and [toggle_monitor] (in
    every state) change their own flag only: the loop buffer, its length,
    the cursor, [is_recording], the capture queue, the monitor queue and
    the other flag are unchanged. So, after a pause, any number of blocks
    delivered while paused and a resume, playback is on again with the loop
    and the cursor it was paused at, and the next block gets the outcome it
    would have got without the pause. *)
Theorem toggles_change_only_their_flag
        (s : state) (blocks : list (list frame * nat * bool)) :
  (is_recording s = false ->
   snd (toggle_playback s) = Ret tt /\
   is_playing (fst (toggle_playback s)) = negb (is_playing s) /\
   loop_buffer (fst (toggle_playback s)) = loop_buffer s /\
   length (loop_buffer (fst (toggle_playback s))) = length (loop_buffer s) /\
   playback_index (fst (toggle_playback s)) = playback_index s /\
   is_recording (fst (toggle_playback s)) = is_recording s /\
   record_queue (fst (toggle_playback s)) = record_queue s /\
   monitor_queue (fst (toggle_playback s)) = monitor_queue s /\
   monitor_enabled (fst (toggle_playback s)) = monitor_enabled s /\
   timers (fst (toggle_playback s)) = timers s) /\
  (snd (toggle_monitor s) = Ret tt /\
   monitor_enabled (fst (toggle_monitor s)) = negb (monitor_enabled s) /\
   loop_buffer (fst (toggle_monitor s)) = loop_buffer s /\
   length (loop_buffer (fst (toggle_monitor s))) = length (loop_buffer s) /\
   playback_index (fst (toggle_monitor s)) = playback_index s /\
   is_recording (fst (toggle_monitor s)) = is_recording s /\
   record_queue (fst (toggle_monitor s)) = record_queue s /\
   monitor_queue (fst (toggle_monitor s)) = monitor_queue s /\
   is_playing (fst (toggle_monitor s)) = is_playing s /\
   timers (fst (toggle_monitor s)) = timers s) /\
  (is_recording s = false ->
   is_playing s = true ->
   forall resumed : state,
     resumed = fst (toggle_playback
                      (run frame_add frame_zero (callback_ops blocks)
                           (fst (toggle_playback s)))) ->
     is_playing resumed = true /\
     is_recording resumed = false /\
     loop_buffer resumed = loop_buffer s /\
     playback_index resumed = playback_index s /\
     forall (indata : list frame) (frames : nat) (status : bool),
       snd (callback indata frames status resumed) =
       snd (callback indata frames status s)).
Proof.
  split; [|split].
  - intros _. run_monad. cbn. repeat split.
  - run_monad. cbn. repeat split.
  - intros Hrec Hplay resumed ->.
    set (paused := fst (toggle_playback s)).
    assert (Hp : is_recording paused = false /\ is_playing paused = false /\
                 monitor_enabled paused = monitor_enabled s /\
                 loop_buffer paused = loop_buffer s /\
                 playback_index paused = playback_index s).
    { unfold paused. run_monad. cbn. rewrite Hplay. auto. }
    destruct Hp as (Hr1 & Hp1 & Hm1 & Hb1 & Hc1).
    destruct (paused_blocks_preserve blocks paused Hr1 Hp1)
      as (Hr2 & Hp2 & Hm2 & Hb2 & Hc2).
    set (s2 := run frame_add frame_zero (callback_ops blocks) paused) in *.
    assert (Hres : is_playing (fst (toggle_playback s2)) = true /\
                   is_recording (fst (toggle_playback s2)) = false /\
                   monitor_enabled (fst (toggle_playback s2)) =
                     monitor_enabled s /\
                   loop_buffer (fst (toggle_playback s2)) = loop_buffer s /\
                   playback_index (fst (toggle_playback s2)) =
                     playback_index s).
    { run_monad. cbn. rewrite Hp2. repeat split; congruence. }
    destruct Hres as (Hp3 & Hr3 & Hm3 & Hb3 & Hc3).
    repeat split; try assumption.
    intros indata frames status.
    apply callback_outcome_ext; congruence.
Qed.

(** ** The monitor queue *)

Lemma monitor_push_no_status
      (s : state) (indata : list frame) (frames : nat) (outdata : list frame) :
  is_recording s = false ->
  monitor_enabled s = true ->
  snd (callback indata frames false s) = Ret outdata ->
  exists pushed : list frame,
    monitor_queue (fst (callback indata frames false s)) =
      monitor_queue s ++ [pushed] /\
    (if is_playing s && (0 <? np_size (loop_buffer s))
     then np_add frame_add
            (playback_chunk (loop_buffer s) (playback_index s) frames)
            indata = Ret pushed
     else pushed = indata) /\
    record_queue (fst (callback indata frames false s)) = record_queue s.
Proof.
  intros Hrec Hmon.
  destruct (is_playing s && (0 <? np_size (loop_buffer s))) eqn:E.
  - apply andb_true_iff in E. destruct E as [Hplay Hsize].
    assert (Hlen : 0 < length (loop_buffer s)).
    { apply Nat.ltb_lt in Hsize. unfold np_size, CHANNELS in Hsize. lia. }
    rewrite callback_playing_unfold by assumption.
    cbn zeta. rewrite Hmon.
    destruct (np_assign frames _) as [out|e|]; cbn; try discriminate.
    destruct (np_add frame_add _ indata) as [mixed|e|]; cbn;
      try discriminate.
    intros _. exists mixed. repeat split.
  - callback_cases s; try congruence.
    intros _. exists indata. repeat split.
Qed.

Lemma callback_passthrough_eq
      (s : state) (indata : list frame) (frames : nat) :
  is_recording s = false ->
  is_playing s && (0 <? np_size (loop_buffer s)) = false ->
  length indata = frames ->
  callback indata frames false s =
    ((if monitor_enabled s
      then set_monitor_queue (monitor_queue s ++ [indata]) s
      else s),
     Ret indata).
Proof.
  intros Hrec Hbranch Hlen. run_monad. rewrite Hrec, Hbranch. cbn.
  rewrite (np_assign_same _ Hlen). destruct (monitor_enabled s); reflexivity.
Qed.

Lemma callback_answers_no_status
      (s : state) (indata : list frame) (frames : nat) :
  is_recording s = false ->
  length indata = frames ->
  is_playing s && (0 <? np_size (loop_buffer s)) = false \/
  (playback_index s < length (loop_buffer s) /\
   playback_index s + frames <= 2 * length (loop_buffer s)) ->
  exists outdata, snd (callback indata frames false s) = Ret outdata.
Proof.
  intros Hrec Hlen Hcase.
  destruct (is_playing s && (0 <? np_size (loop_buffer s))) eqn:E.
  - destruct Hcase as [Hcase|[Hc Hn]]; [discriminate|].
    apply andb_true_iff in E. destruct E as [Hplay _].
    assert (Hchunk : length (playback_chunk (loop_buffer s)
                                            (playback_index s) frames)
                     = frames).
    { rewrite playback_chunk_length by assumption. lia. }
    rewrite callback_playing_unfold by (auto; lia). cbn zeta.
    rewrite (np_assign_same _ Hchunk).
    destruct (monitor_enabled s); [|eexists; reflexivity].
    rewrite np_add_same by congruence. eexists. reflexivity.
  - rewrite callback_passthrough_eq by assumption.
    eexists. reflexivity.
Qed.

Lemma callback_keeps_capture_queue
      (s : state) (indata : list frame) (frames : nat) (status : bool) :
  is_recording s = false ->
  record_queue (fst (callback indata frames status s)) = record_queue s.
Proof.
  intros Hrec.
  destruct status; [rewrite callback_status|];
    callback_cases s; congruence.
Qed.

(** While passing through with monitoring on, every block delivered is
    kept in the monitor queue, in order, whatever the queue holds. *)
Lemma passthrough_blocks_queue
      (blocks : list (list frame * nat * bool)) (s : state) :
  is_recording s = false ->
  is_playing s = false ->
  monitor_enabled s = true ->
  Forall (@as_delivered frame) blocks ->
  monitor_queue (run frame_add frame_zero (callback_ops blocks) s) =
  monitor_queue s ++ block_inputs blocks.
Proof.
  revert s.
  induction blocks as [|[[indata frames] status] blocks IH];
    intros s Hrec Hplay Hmon Hall.
  - cbn. now rewrite app_nil_r.
  - inversion Hall as [|b bs Hlen Hrest]; subst. cbn in Hlen.
    cbn [callback_ops map run fold_left fst snd block_inputs].
    rewrite exec_callback.
    destruct (callback_preserves s indata frames status)
      as (Hr1 & Hp1 & Hm1 & _).
    assert (Hq1 : monitor_queue (fst (callback indata frames status s)) =
                  monitor_queue s ++ [indata]).
    { destruct status; [rewrite callback_status|];
        rewrite callback_passthrough_eq
          by (cbn; auto; rewrite ?Hplay; reflexivity);
        cbn [monitor_enabled set_console]; rewrite Hmon; reflexivity. }
    set (s1 := fst (callback indata frames status s)) in *.
    specialize (IH s1).
    unfold callback_ops, run, block_inputs in *.
    rewrite IH by congruence.
    rewrite Hq1, <- app_assoc. reflexivity.
Qed.

(** C9, as the code has it. The monitor queue is a FIFO without a bound.
    With monitoring enabled and not recording: the callback never blocks,
    whatever the queue holds; a block of [frames] input rows is answered
    when passing through or within one wrap of the loop; whenever the
    callback returns it has appended exactly one block at the tail of the
    queue (the input block when passing through, the chunk plus the input
    block when playing), so nothing is dropped and the occupancy grows by
    one; the flags, the loop buffer and the capture queue are unchanged;
    and a run of blocks passed through leaves all of them in the queue, in
    order, so that no bound holds. *)
Theorem monitor_push_unbounded
        (s : state) (indata : list frame) (frames : nat) (status : bool)
        (blocks : list (list frame * nat * bool)) :
  is_recording s = false ->
  monitor_enabled s = true ->
  snd (callback indata frames status s) <> Blocks /\
  (length indata = frames ->
   is_playing s && (0 <? np_size (loop_buffer s)) = false \/
   (playback_index s < length (loop_buffer s) /\
    playback_index s + frames <= 2 * length (loop_buffer s)) ->
   exists outdata, snd (callback indata frames status s) = Ret outdata) /\
  (forall outdata,
     snd (callback indata frames status s) = Ret outdata ->
     exists pushed : list frame,
       monitor_queue (fst (callback indata frames status s)) =
         monitor_queue s ++ [pushed] /\
       (if is_playing s && (0 <? np_size (loop_buffer s))
        then np_add frame_add
               (playback_chunk (loop_buffer s) (playback_index s) frames)
               indata = Ret pushed
        else pushed = indata) /\
       length (monitor_queue (fst (callback indata frames status s))) =
         S (length (monitor_queue s))) /\
  record_queue (fst (callback indata frames status s)) = record_queue s /\
  loop_buffer (fst (callback indata frames status s)) = loop_buffer s /\
  is_recording (fst (callback indata frames status s)) = false /\
  is_playing (fst (callback indata frames status s)) = is_playing s /\
  monitor_enabled (fst (callback indata frames status s)) = true /\
  (is_playing s = false ->
   Forall (@as_delivered frame) blocks ->
   monitor_queue (run frame_add frame_zero (callback_ops blocks) s) =
     monitor_queue s ++ block_inputs blocks /\
   length (monitor_queue (run frame_add frame_zero (callback_ops blocks) s)) =
     length (monitor_queue s) + length blocks).
Proof.
  intros Hrec Hmon.
  destruct (callback_preserves s indata frames status)
    as (Hr & Hp & Hm & Hb & _).
  split; [apply callback_never_blocks|].
  split.
  { intros Hlen Hcase. destruct status.
    - rewrite callback_status.
      apply (callback_answers_no_status
               (set_console (console s ++ [MsgStatus]) s));
        assumption.
    - now apply callback_answers_no_status. }
  split.
  { intros outdata Hret.
    assert (Hpush : exists pushed : list frame,
               monitor_queue (fst (callback indata frames status s)) =
                 monitor_queue s ++ [pushed] /\
               (if is_playing s && (0 <? np_size (loop_buffer s))
                then np_add frame_add
                       (playback_chunk (loop_buffer s) (playback_index s)
                                       frames) indata = Ret pushed
                else pushed = indata) /\
               record_queue (fst (callback indata frames status s)) =
                 record_queue s).
    { destruct status.
      - rewrite callback_status in *.
        eapply (monitor_push_no_status
                  (set_console (console s ++ [MsgStatus]) s));
          eassumption.
      - eapply monitor_push_no_status; eassumption. }
    destruct Hpush as (pushed & Hq & Hwhat & _).
    exists pushed. split; [exact Hq|]. split; [exact Hwhat|].
    rewrite Hq, length_app. cbn [length]. lia. }
  split; [now apply callback_keeps_capture_queue|].
  repeat split; try congruence.
  - now apply passthrough_blocks_queue.
  - rewrite passthrough_blocks_queue by assumption.
    unfold block_inputs. now rewrite length_app, length_map.
Qed.

(** ** Recording and playing *)

Lemma toggle_record_exclusive (s : state) :
  exclusive (fst (toggle_record s)).
Proof.
  unfold exclusive.
  destruct (is_recording s) eqn:Hrec.
  - destruct (record_queue s) as [|item q] eqn:Hq.
    + now rewrite toggle_record_stop_empty.
    + rewrite toggle_record_stop_data by congruence. reflexivity.
  - now rewrite toggle_record_start.
Qed.

Lemma record_for_duration_exclusive (s : state) (duration_var : option Z) :
  exclusive s -> exclusive (fst (record_for_duration duration_var s)).
Proof.
  unfold exclusive. intros H. run_monad.
  destruct duration_var as [ms|]; [|exact H].
  unfold py_truediv_1000.
  destruct (int_to_float_overflows ms); [exact H|].
  destruct (is_recording s) eqn:Hrec; cbn; [|reflexivity].
  now rewrite Hrec.
Qed.

Lemma timer_fire_exclusive (s : state) (i : nat) :
  exclusive s -> exclusive (fst (timer_fire i s)).
Proof.
  intros H. unfold timer_fire, bind, get, modify.
  destruct (nth_error (timers s) i); [|exact H].
  apply toggle_record_exclusive.
Qed.

Lemma exec_exclusive (o : op) (s : state) :
  guarded o s = true ->
  exclusive s ->
  exclusive (exec frame_add frame_zero o s).
Proof.
  intros Hg H.
  destruct o as [indata frames status| | | | |d|i].
  - rewrite exec_callback. unfold exclusive in *.
    destruct (callback_preserves s indata frames status) as (Hr & Hp & _).
    now rewrite Hr, Hp.
  - apply toggle_record_exclusive.
  - unfold exclusive, exec. run_monad. reflexivity.
  - unfold exclusive, exec in *. cbn in Hg. run_monad. cbn.
    destruct (is_recording s); [discriminate|reflexivity].
  - unfold exclusive, exec in *. run_monad. exact H.
  - now apply record_for_duration_exclusive.
  - now apply timer_fire_exclusive.
Qed.

Lemma run_exclusive (ops : list op) (s : state) :
  all_guarded frame_add frame_zero ops s = true ->
  exclusive s ->
  exclusive (run frame_add frame_zero ops s).
Proof.
  revert s.
  induction ops as [|o ops IH]; intros s Hg H; [exact H|].
  cbn [all_guarded] in Hg. apply andb_true_iff in Hg.
  destruct Hg as [Hg Hrest].
  cbn [run fold_left]. apply IH; [exact Hrest|].
  now apply exec_exclusive.
Qed.

(** C5, as the code has it. In every state reached from the initial state
    by calls of [toggle_record], [reset_loop], [toggle_monitor],
    [record_for_duration] and [toggle_playback] (and by audio blocks and
    expiring timers), where [toggle_playback] is only called while not
    recording, [is_recording] and [is_playing] are not both true. *)
Theorem recording_excludes_playing (ops : list op) :
  all_guarded frame_add frame_zero ops initial_state = true ->
  is_recording (run frame_add frame_zero ops initial_state)
  && is_playing (run frame_add frame_zero ops initial_state) = false.
Proof.
  intros Hg. apply run_exclusive; [exact Hg|reflexivity].
Qed.

(** * More of the engine *)

(** ** audio_callback while recording *)

Lemma callback_recording_eq
      (s : state) (indata : list frame) (frames : nat) :
  is_recording s = true ->
  callback indata frames false s =
    (set_record_queue (record_queue s ++ [indata]) s,
     Ret (repeat frame_zero frames)).
Proof.
  intros Hrec. run_monad. rewrite Hrec. reflexivity.
Qed.

(** X1. While recording, the callback appends the input block at the tail of
    the capture queue and hands back [frames] rows of silence, whatever the
    sizes; it does not raise, and the loop buffer, the cursor and the
    monitor queue are left alone. *)
Theorem callback_recording_captures
        (s : state) (indata : list frame) (frames : nat) (status : bool) :
  is_recording s = true ->
  snd (callback indata frames status s) = Ret (repeat frame_zero frames) /\
  record_queue (fst (callback indata frames status s)) =
    record_queue s ++ [indata] /\
  loop_buffer (fst (callback indata frames status s)) = loop_buffer s /\
  playback_index (fst (callback indata frames status s)) = playback_index s /\
  monitor_queue (fst (callback indata frames status s)) = monitor_queue s.
Proof.
  intros Hrec.
  destruct status; [rewrite callback_status|];
    rewrite callback_recording_eq by exact Hrec; cbn; repeat split.
Qed.

Lemma recording_blocks_accumulate
      (blocks : list (list frame * nat * bool)) (s : state) :
  is_recording s = true ->
  let s' := run frame_add frame_zero (callback_ops blocks) s in
  record_queue s' = record_queue s ++ block_inputs blocks /\
  is_recording s' = true /\
  is_playing s' = is_playing s /\
  loop_buffer s' = loop_buffer s /\
  playback_index s' = playback_index s /\
  timers s' = timers s /\
  callback_outputs frame_add frame_zero blocks s =
    map (fun b => Ret (repeat frame_zero (snd (fst b)))) blocks.
Proof.
  revert s.
  induction blocks as [|[[indata frames] status] blocks IH]; intros s Hrec.
  - cbn. rewrite app_nil_r. repeat split; auto.
  - cbn [callback_ops map run fold_left fst snd callback_outputs
         block_inputs].
    rewrite exec_callback.
    assert (Hstep : fst (callback indata frames status s) =
                    set_record_queue (record_queue s ++ [indata])
                      (if status
                       then set_console (console s ++ [MsgStatus]) s
                       else s) /\
                    snd (callback indata frames status s) =
                    Ret (repeat frame_zero frames)).
    { destruct status; [rewrite callback_status|];
        rewrite callback_recording_eq by exact Hrec; split; reflexivity. }
    destruct Hstep as [Hst Hout]. rewrite Hout, Hst.
    set (s1 := set_record_queue _ _).
    assert (Hrec1 : is_recording s1 = true)
      by (unfold s1; destruct status; exact Hrec).
    destruct (IH s1 Hrec1) as (Hq & Hr & Hp & Hb & Hc & Ht & Ho).
    unfold callback_ops, run, block_inputs in *.
    rewrite Hq, Hr, Hp, Hb, Hc, Ht, Ho.
    unfold s1. destruct status; cbn; rewrite <- app_assoc;
      repeat split; reflexivity.
Qed.

Lemma run_cons (o : op) (ops : list op) (s : state) :
  run frame_add frame_zero (o :: ops) s =
  run frame_add frame_zero ops (exec frame_add frame_zero o s).
Proof. reflexivity. Qed.

Lemma run_nil (s : state) : run frame_add frame_zero [] s = s.
Proof. reflexivity. Qed.

Lemma block_inputs_nonempty (blocks : list (list frame * nat * bool)) :
  blocks <> [] -> block_inputs blocks <> [].
Proof. destruct blocks; cbn; congruence. Qed.

(** X2. Record, audio blocks, record again: with at least one block, the loop
    is the concatenation of the blocks heard in between, in order, played
    from row 0; every block of the recording got silence back. *)
Theorem record_round_trip
        (s : state) (blocks : list (list frame * nat * bool)) :
  is_recording s = false ->
  record_queue s = [] ->
  blocks <> [] ->
  let s' := run frame_add frame_zero
                (ToggleRecord :: callback_ops blocks ++ [ToggleRecord]) s in
  loop_buffer s' = concat (block_inputs blocks) /\
  playback_index s' = 0 /\
  is_playing s' = true /\
  is_recording s' = false /\
  record_queue s' = [] /\
  callback_outputs frame_add frame_zero blocks
                   (exec frame_add frame_zero ToggleRecord s) =
    map (fun b => Ret (repeat frame_zero (snd (fst b)))) blocks.
Proof.
  intros Hrec Hq Hne. cbv zeta.
  rewrite run_cons, run_app, run_cons, run_nil.
  set (s1 := exec frame_add frame_zero ToggleRecord s).
  assert (H1 : is_recording s1 = true /\ record_queue s1 = []).
  { unfold s1, exec, run_op. rewrite toggle_record_start by exact Hrec.
    cbn. auto. }
  destruct H1 as [Hrec1 Hq1].
  destruct (recording_blocks_accumulate blocks s1 Hrec1)
    as (Hq2 & Hrec2 & _ & _ & _ & _ & Hout).
  set (s2 := run frame_add frame_zero (callback_ops blocks) s1) in *.
  rewrite Hq1 in Hq2. cbn [app] in Hq2.
  assert (Hne2 : record_queue s2 <> [])
    by (rewrite Hq2; now apply block_inputs_nonempty).
  unfold exec, run_op.
  rewrite (toggle_record_stop_data _ Hrec2 Hne2). cbn.
  rewrite Hq2. repeat split. exact Hout.
Qed.

(** ** Timed recordings *)

Lemma record_for_duration_start (s : state) (ms : Z) :
  int_to_float_overflows ms = false ->
  is_recording s = false ->
  record_for_duration (Some ms) s =
    (set_timers (timers s ++ [ms])
       (set_console (console s ++ [MsgTimedStarted ms])
          (set_indicator_red true
             (set_is_playing false
                (set_is_recording true
                   (set_playback_index 0 (set_record_queue [] s)))))),
     Ret tt).
Proof.
  intros Hms H. run_monad. unfold py_truediv_1000. rewrite Hms, H. cbn.
  rewrite discard_loop_all. reflexivity.
Qed.




(** X4. Record pressed twice with no audio block in between: no loop is made,
    the old loop and the cursor are kept, and playback is off even if it
    was on before. *)
Theorem double_toggle_without_audio (s : state) :
  is_recording s = false ->
  record_queue s = [] ->
  let s' := run frame_add frame_zero [ToggleRecord; ToggleRecord] s in
  is_recording s' = false /\
  is_playing s' = false /\
  loop_buffer s' = loop_buffer s /\
  playback_index s' = playback_index s /\
  console s' = console s ++ [MsgRecordStarted; MsgNoData].
Proof.
  intros Hrec Hq. cbv zeta.
  rewrite !run_cons, run_nil. unfold exec, run_op.
  rewrite (toggle_record_start _ Hrec). cbn [fst].
  rewrite toggle_record_stop_empty by (cbn; auto).
  cbn. rewrite <- app_assoc. repeat split.
Qed.

(** ** Invariants of every run *)

Lemma run_invariant (P : state -> Prop) :
  (forall (o : op) (s : state), P s -> P (exec frame_add frame_zero o s)) ->
  forall (ops : list op) (s : state),
    P s -> P (run frame_add frame_zero ops s).
Proof.
  intros Hstep ops.
  induction ops as [|o ops IH]; intros s H; [exact H|].
  rewrite run_cons. apply IH, Hstep, H.
Qed.

Lemma toggle_record_cases (P : state -> Prop) (s : state) :
  (is_recording s = false ->
   P (set_console (console s ++ [MsgRecordStarted])
        (set_indicator_red true
           (set_is_playing false (set_is_recording true s))))) ->
  (is_recording s = true -> record_queue s <> [] ->
   P (set_indicator_red false
        (set_console
           (console s
            ++ [MsgRecordStopped (length (concat (record_queue s)))])
           (set_is_playing true
              (set_playback_index 0
                 (set_loop_buffer (concat (record_queue s))
                    (set_record_queue [] (set_is_recording false s)))))))) ->
  (is_recording s = true -> record_queue s = [] ->
   P (set_indicator_red false
        (set_console (console s ++ [MsgNoData])
           (set_record_queue [] (set_is_recording false s))))) ->
  P (fst (toggle_record s)).
Proof.
  intros Hstart Hdata Hempty.
  destruct (is_recording s) eqn:Hrec.
  - destruct (record_queue s) as [|item q] eqn:Hq.
    + rewrite toggle_record_stop_empty by assumption. now apply Hempty.
    + rewrite toggle_record_stop_data by congruence.
      rewrite Hq in *. apply Hdata; congruence.
  - rewrite toggle_record_start by assumption. now apply Hstart.
Qed.

Lemma py_mod_ret_lt (a b r : nat) : py_mod a b = Ret r -> r < b.
Proof.
  unfold py_mod. destruct (Nat.eqb_spec b 0); [discriminate|].
  intros [= <-]. apply Nat.mod_upper_bound. assumption.
Qed.

Lemma callback_effects
      (s : state) (indata : list frame) (frames : nat) (status : bool) :
  is_recording (fst (callback indata frames status s)) = is_recording s /\
  loop_buffer (fst (callback indata frames status s)) = loop_buffer s /\
  indicator_red (fst (callback indata frames status s)) = indicator_red s /\
  (record_queue (fst (callback indata frames status s)) = record_queue s \/
   is_recording s = true) /\
  (playback_index (fst (callback indata frames status s)) = playback_index s \/
   playback_index (fst (callback indata frames status s))
   < length (loop_buffer s)).
Proof.
  destruct status; [rewrite callback_status|];
    callback_cases s; repeat split; auto;
    right; eapply py_mod_ret_lt; eassumption.
Qed.

Lemma record_for_duration_cases
      (P : state -> Prop) (s : state) (duration_var : option Z) :
  (duration_var = None ->
   P (set_console (console s ++ [MsgTimedInvalid]) s)) ->
  (forall ms, duration_var = Some ms -> int_to_float_overflows ms = true ->
   P s) ->
  (forall ms, duration_var = Some ms -> is_recording s = true ->
   P (set_console (console s ++ [MsgTimedAlready]) s)) ->
  (forall ms, duration_var = Some ms -> is_recording s = false ->
   P (set_timers (timers s ++ [ms])
        (set_console (console s ++ [MsgTimedStarted ms])
           (set_indicator_red true
              (set_is_playing false
                 (set_is_recording true
                    (set_playback_index 0 (set_record_queue [] s)))))))) ->
  P (fst (record_for_duration duration_var s)).
Proof.
  intros Hnone Hover Halready Hstart.
  destruct duration_var as [ms|].
  - destruct (int_to_float_overflows ms) eqn:Hms.
    { rewrite record_for_duration_overflow by exact Hms.
      now apply Hover with (ms := ms). }
    destruct (is_recording s) eqn:Hrec.
    + specialize (Halready ms eq_refl eq_refl).
      run_monad. unfold py_truediv_1000. rewrite Hms, Hrec. exact Halready.
    + rewrite record_for_duration_start by assumption.
      now apply Hstart with (ms := ms).
  - now apply Hnone.
Qed.

Lemma reset_loop_eq (s : state) :
  reset_loop s =
    (set_console (console s ++ [MsgReset])
       (set_indicator_red false
          (set_playback_index 0
             (set_is_playing false
                (set_record_queue []
                   (set_is_recording false (set_loop_buffer [] s)))))),
     Ret tt).
Proof.
  run_monad. cbn. rewrite discard_loop_all. reflexivity.
Qed.

Lemma exec_queue_idle (o : op) (s : state) :
  queue_idle s -> queue_idle (exec frame_add frame_zero o s).
Proof.
  unfold queue_idle. intros H.
  destruct o as [indata frames status| | | | |d|i].
  - rewrite exec_callback.
    destruct (callback_effects s indata frames status)
      as (Hr & _ & _ & Hq & _).
    rewrite Hr. destruct Hq as [Hq|Hq]; [rewrite Hq; exact H|now left].
  - unfold exec, run_op. apply toggle_record_cases; intros; cbn; auto.
  - unfold exec, run_op. rewrite reset_loop_eq. cbn. auto.
  - unfold exec. run_monad. exact H.
  - unfold exec. run_monad. exact H.
  - unfold exec, run_op. apply record_for_duration_cases; intros; cbn; auto.
  - unfold exec, run_op, timer_fire, bind, get, modify.
    destruct (nth_error (timers s) i); [|exact H].
    apply toggle_record_cases; intros; cbn; auto.
Qed.

Lemma exec_cursor_in_bounds (o : op) (s : state) :
  cursor_in_bounds s -> cursor_in_bounds (exec frame_add frame_zero o s).
Proof.
  unfold cursor_in_bounds. intros H.
  destruct o as [indata frames status| | | | |d|i].
  - rewrite exec_callback.
    destruct (callback_effects s indata frames status)
      as (_ & Hb & _ & _ & Hc).
    rewrite Hb. destruct Hc as [Hc|Hc]; [rewrite Hc; exact H|now right].
  - unfold exec, run_op. apply toggle_record_cases; intros; cbn; auto.
  - unfold exec, run_op. rewrite reset_loop_eq. cbn. auto.
  - unfold exec. run_monad. exact H.
  - unfold exec. run_monad. exact H.
  - unfold exec, run_op. apply record_for_duration_cases; intros; cbn; auto.
  - unfold exec, run_op, timer_fire, bind, get, modify.
    destruct (nth_error (timers s) i); [|exact H].
    apply toggle_record_cases; intros; cbn; auto.
Qed.

Lemma exec_indicator (o : op) (s : state) :
  indicator_red s = is_recording s ->
  indicator_red (exec frame_add frame_zero o s) =
  is_recording (exec frame_add frame_zero o s).
Proof.
  intros H.
  destruct o as [indata frames status| | | | |d|i].
  - rewrite exec_callback.
    destruct (callback_effects s indata frames status)
      as (Hr & _ & Hi & _ & _).
    congruence.
  - unfold exec, run_op. apply toggle_record_cases; intros; cbn; auto.
  - unfold exec, run_op. rewrite reset_loop_eq. cbn. auto.
  - unfold exec. run_monad. exact H.
  - unfold exec. run_monad. exact H.
  - unfold exec, run_op. apply record_for_duration_cases; intros; cbn; auto.
  - unfold exec, run_op, timer_fire, bind, get, modify.
    destruct (nth_error (timers s) i); [|exact H].
    apply toggle_record_cases; intros; cbn; auto.
Qed.

(** X5. In every state the script can reach, by any calls of the callback, the
    controls and the timers, the capture queue is empty unless a recording
    is on. *)
Theorem capture_queue_empty_unless_recording (ops : list op) :
  is_recording (run frame_add frame_zero ops initial_state) = true \/
  record_queue (run frame_add frame_zero ops initial_state) = [].
Proof.
  apply (run_invariant (@queue_idle frame) exec_queue_idle). now right.
Qed.

(** X6. In every state the script can reach, the cursor is 0 or points into the
    loop buffer: it is a row of the loop whenever the loop is not empty. *)
Theorem cursor_always_in_bounds (ops : list op) :
  playback_index (run frame_add frame_zero ops initial_state) = 0 \/
  playback_index (run frame_add frame_zero ops initial_state)
  < length (loop_buffer (run frame_add frame_zero ops initial_state)).
Proof.
  apply (run_invariant (@cursor_in_bounds frame) exec_cursor_in_bounds).
  now left.
Qed.

(** X7. In every state the script can reach, the indicator is red exactly when
    a recording is on. *)
Theorem indicator_follows_recording (ops : list op) :
  indicator_red (run frame_add frame_zero ops initial_state) =
  is_recording (run frame_add frame_zero ops initial_state).
Proof.
  apply (run_invariant (fun s => indicator_red s = is_recording s)
                       exec_indicator).
  reflexivity.
Qed.

(** ** Playing a run of blocks *)

Lemma callback_playing_ok
      (s : state) (indata : list frame) (frames : nat) (status : bool) :
  is_recording s = false ->
  is_playing s = true ->
  playback_index s < length (loop_buffer s) ->
  playback_index s + frames <= 2 * length (loop_buffer s) ->
  length indata = frames ->
  snd (callback indata frames status s) =
    Ret (playback_chunk (loop_buffer s) (playback_index s) frames) /\
  playback_index (fst (callback indata frames status s)) =
    (playback_index s + frames) mod length (loop_buffer s) /\
  monitor_queue (fst (callback indata frames status s)) =
    (if monitor_enabled s
     then monitor_queue s
          ++ [add_rows frame_add
                (playback_chunk (loop_buffer s) (playback_index s) frames)
                indata]
     else monitor_queue s).
Proof.
  intros Hrec Hplay Hc Hn Hlen.
  assert (Hchunk : length (playback_chunk (loop_buffer s)
                                          (playback_index s) frames) = frames).
  { rewrite playback_chunk_length by assumption. lia. }
  destruct status; [rewrite callback_status|];
    rewrite callback_playing_unfold by (cbn; auto; lia);
    cbn zeta;
    cbn [loop_buffer playback_index monitor_enabled monitor_queue
         set_console];
    rewrite (np_assign_same _ Hchunk);
    (destruct (monitor_enabled s); [|repeat split]);
    rewrite np_add_same by congruence; repeat split.
Qed.

Lemma map_seq_from (A : Type) (f : nat -> A) (a n : nat) :
  map f (seq a n) = map (fun j => f (a + j)) (seq 0 n).
Proof.
  revert f a.
  induction n as [|n IH]; intros f a; [reflexivity|].
  cbn [seq map]. rewrite Nat.add_0_r. f_equal.
  rewrite (IH f (S a)), (IH (fun j => f (a + j)) 1).
  apply map_ext. intros j. f_equal. lia.
Qed.

Lemma circular_read_app (buf : list frame) (cursor n1 n2 : nat) :
  circular_read buf cursor (n1 + n2) =
  circular_read buf cursor n1
  ++ circular_read buf ((cursor + n1) mod length buf) n2.
Proof.
  unfold circular_read.
  rewrite seq_app, map_app. f_equal.
  rewrite map_seq_from. apply map_ext. intros j.
  rewrite Nat.Div0.add_mod_idemp_l. f_equal. f_equal. lia.
Qed.

(** X10. A playing loop fed with blocks no longer than the loop: every block is
    answered, the answers put end to end are the loop read circularly from
    the cursor, and the cursor ends at (cursor + rows played) mod L. *)
Theorem playback_stream
        (s : state) (blocks : list (list frame * nat * bool)) :
  is_recording s = false ->
  is_playing s = true ->
  playback_index s < length (loop_buffer s) ->
  Forall (well_sized (length (loop_buffer s))) blocks ->
  exists outs : list (list frame),
    callback_outputs frame_add frame_zero blocks s = map Ret outs /\
    map Some (concat outs) =
      circular_read (loop_buffer s) (playback_index s)
                    (total_frames blocks) /\
    playback_index (run frame_add frame_zero (callback_ops blocks) s) =
      (playback_index s + total_frames blocks) mod length (loop_buffer s).
Proof.
  revert s.
  induction blocks as [|[[indata frames] status] blocks IH];
    intros s Hrec Hplay Hc Hall.
  - exists []. cbn. rewrite Nat.add_0_r, Nat.mod_small by exact Hc.
    repeat split.
  - inversion Hall as [|b bs [Hlen Hle] Hrest]; subst. cbn in Hlen, Hle.
    destruct (@callback_playing_ok s indata frames status Hrec Hplay Hc)
      as (Hout & Hcur & _); [lia|exact Hlen|].
    destruct (callback_preserves s indata frames status)
      as (Hr1 & Hp1 & _ & Hb1 & _).
    set (s1 := fst (callback indata frames status s)) in *.
    assert (Hc1 : playback_index s1 < length (loop_buffer s1)).
    { rewrite Hcur, Hb1. apply Nat.mod_upper_bound. lia. }
    destruct (IH s1) as (outs & Houts & Hread & Hend);
      [congruence|congruence|exact Hc1|now rewrite Hb1|].
    exists (playback_chunk (loop_buffer s) (playback_index s) frames
            :: outs).
    cbn [callback_outputs callback_ops map run fold_left fst snd concat
         total_frames list_sum].
    rewrite exec_callback. fold s1.
    change (fold_left _ (map _ blocks) s1)
      with (run frame_add frame_zero (callback_ops blocks) s1).
    fold (total_frames blocks).
    rewrite Hout, Houts, Hend, Hcur, Hb1.
    repeat split.
    + rewrite map_app, playback_chunk_circular by lia.
      rewrite Hread, Hcur, Hb1. symmetry. apply circular_read_app.
    + rewrite Nat.Div0.add_mod_idemp_l. f_equal.
      change (total_frames ((indata, frames, status) :: blocks))
        with (frames + total_frames blocks). lia.
Qed.

(** X9. While playing, a block is answered exactly when it does not run past
    the end of the loop by more than one loop length. *)
Theorem callback_playing_returns_iff
        (s : state) (indata : list frame) (frames : nat) (status : bool) :
  is_recording s = false ->
  is_playing s = true ->
  playback_index s < length (loop_buffer s) ->
  length indata = frames ->
  (exists outdata, snd (callback indata frames status s) = Ret outdata) <->
  playback_index s + frames <= 2 * length (loop_buffer s).
Proof.
  intros Hrec Hplay Hc Hlen. split.
  - intros [outdata Hret].
    destruct (Nat.le_gt_cases (playback_index s + frames)
                              (2 * length (loop_buffer s))) as [H|H];
      [exact H|exfalso].
    assert (Hchunk : np_assign frames
              (playback_chunk (loop_buffer s) (playback_index s) frames)
            = Raise ValueError).
    { apply np_assign_mismatch;
        rewrite playback_chunk_length by assumption; lia. }
    revert Hret.
    destruct status; [rewrite callback_status|];
      rewrite callback_playing_unfold by (cbn; auto; lia);
      cbn zeta; cbn [loop_buffer playback_index monitor_enabled set_console];
      rewrite Hchunk; discriminate.
  - intros H. eexists.
    apply (@callback_playing_ok s indata frames status Hrec Hplay Hc H
                                Hlen).
Qed.

Lemma add_rows_nth_error (a b : list frame) (i : nat) (x y : frame) :
  nth_error a i = Some x ->
  nth_error b i = Some y ->
  nth_error (add_rows frame_add a b) i = Some (frame_add x y).
Proof.
  revert b i.
  induction a as [|x' a IH]; intros [|y' b] [|i] Ha Hb; cbn in *;
    try discriminate.
  - congruence.
  - now apply IH.
Qed.

Lemma playback_chunk_nth_error (buf : list frame) (cursor frames i : nat) :
  cursor < length buf ->
  cursor + frames <= 2 * length buf ->
  i < frames ->
  nth_error (playback_chunk buf cursor frames) i =
  nth_error buf ((cursor + i) mod length buf).
Proof.
  intros Hc Hn Hi.
  pose proof (f_equal (fun l => nth_error l i)
                      (@playback_chunk_circular buf cursor frames Hc Hn))
    as H.
  cbn beta in H. unfold circular_read in H.
  rewrite !nth_error_map, nth_error_seq in H.
  destruct (Nat.ltb_spec i frames); [|lia]. cbn in H.
  destruct (nth_error (playback_chunk buf cursor frames) i);
    cbn in H; congruence.
Qed.

(** X11. While playing with monitoring on, the block pushed to the monitor queue
    has one row per input row, and row [i] is the sum of row
    [(cursor + i) mod L] of the loop and row [i] of the input. *)
Theorem monitor_mix
        (s : state) (indata : list frame) (frames : nat) (status : bool) :
  is_recording s = false ->
  is_playing s = true ->
  monitor_enabled s = true ->
  playback_index s < length (loop_buffer s) ->
  playback_index s + frames <= 2 * length (loop_buffer s) ->
  length indata = frames ->
  exists pushed : list frame,
    monitor_queue (fst (callback indata frames status s)) =
      monitor_queue s ++ [pushed] /\
    length pushed = frames /\
    forall (i : nat) (x y : frame),
      nth_error (loop_buffer s)
                ((playback_index s + i) mod length (loop_buffer s)) = Some x ->
      nth_error indata i = Some y ->
      nth_error pushed i = Some (frame_add x y).
Proof.
  intros Hrec Hplay Hmon Hc Hn Hlen.
  destruct (@callback_playing_ok s indata frames status Hrec Hplay Hc Hn
                                 Hlen)
    as (_ & _ & Hq).
  rewrite Hmon in Hq.
  assert (Hchunk : length (playback_chunk (loop_buffer s)
                                          (playback_index s) frames) = frames).
  { rewrite playback_chunk_length by assumption. lia. }
  eexists. split; [exact Hq|]. split.
  - rewrite add_rows_length by congruence. exact Hchunk.
  - intros i x y Hx Hy.
    assert (Hi : i < frames).
    { rewrite <- Hlen. apply nth_error_Some. congruence. }
    apply add_rows_nth_error; [|exact Hy].
    now rewrite playback_chunk_nth_error.
Qed.

(** X12. While neither recording nor playing, whatever the loop holds, the
    callback hands the input block back as the output, leaves the cursor
    and the loop alone, and pushes the input block to the monitor queue
    exactly when monitoring is on. *)
Theorem callback_paused_passthrough
        (s : state) (indata : list frame) (frames : nat) (status : bool) :
  is_recording s = false ->
  is_playing s = false ->
  length indata = frames ->
  snd (callback indata frames status s) = Ret indata /\
  playback_index (fst (callback indata frames status s)) = playback_index s /\
  loop_buffer (fst (callback indata frames status s)) = loop_buffer s /\
  monitor_queue (fst (callback indata frames status s)) =
    (if monitor_enabled s then monitor_queue s ++ [indata]
     else monitor_queue s).
Proof.
  intros Hrec Hplay Hlen.
  run_monad.
  destruct status; cbn; rewrite Hrec, Hplay; cbn;
    rewrite (np_assign_same _ Hlen); destruct (monitor_enabled s); cbn;
    repeat split; auto.
Qed.

End Properties.

(** * Worked runs *)

(** The scenario of the specification: three blocks of 256 rows are
    recorded and the recording is stopped; the loop has 768 rows. *)
Example record_three_blocks :
  let s := run_mono [ToggleRecord;
                     AudioCallback (seq 0 256) 256 false;
                     AudioCallback (seq 256 256) 256 false;
                     AudioCallback (seq 512 256) 256 false;
                     ToggleRecord] initial_state in
  loop_buffer s = seq 0 768 /\ playback_index s = 0 /\
  is_playing s = true /\ is_recording s = false.
Proof. vm_compute. repeat split. Qed.

(** The scenario of the specification: a block of 256 rows played from row
    700 of a loop of 768 rows is rows 700..767 followed by rows 0..187, and
    the cursor becomes 188. *)
Example play_768_from_700 :
  audio_callback Nat.add 0 (repeat 0 256) 256 false loop_768_at_700 =
  (set_playback_index 188 loop_768_at_700, Ret (seq 700 68 ++ seq 0 188)).
Proof. vm_compute. reflexivity. Qed.

Lemma callback_multi_wrap_raises_witness :
  (is_recording loop_2_at_0 = false /\
   is_playing loop_2_at_0 = true /\
   playback_index loop_2_at_0 < length (loop_buffer loop_2_at_0) /\
   2 * length (loop_buffer loop_2_at_0) < playback_index loop_2_at_0 + 5) /\
  snd (audio_callback Nat.add 0 [1; 2; 3; 4; 5] 5 false loop_2_at_0) =
    Raise ValueError /\
  playback_index
    (fst (audio_callback Nat.add 0 [1; 2; 3; 4; 5] 5 false loop_2_at_0)) =
    (playback_index loop_2_at_0 + 5) mod length (loop_buffer loop_2_at_0).
Proof.
  assert (H1 : is_recording loop_2_at_0 = false) by reflexivity.
  assert (H2 : is_playing loop_2_at_0 = true) by reflexivity.
  assert (H3 : playback_index loop_2_at_0 < length (loop_buffer loop_2_at_0))
    by (cbn; lia).
  assert (H4 : 2 * length (loop_buffer loop_2_at_0)
               < playback_index loop_2_at_0 + 5) by (cbn; lia).
  split; [repeat split; assumption|].
  exact (@callback_multi_wrap_raises nat Nat.add 0 loop_2_at_0
           [1; 2; 3; 4; 5] 5 false H1 H2 H3 H4).
Defined.

(** Stopping with nothing captured, after pause was pressed during the
    recording: [is_playing] stays true. *)
Lemma stop_without_data_keeps_playing :
  ~ (forall s : state nat,
        is_recording s = true ->
        record_queue s = [] ->
        is_recording (fst (toggle_record s)) = false /\
        is_playing (fst (toggle_record s)) = false).
Proof.
  intros H.
  destruct (H record_then_pause eq_refl eq_refl) as [_ Hplay].
  vm_compute in Hplay. discriminate Hplay.
Qed.

Lemma toggle_record_stop_witness :
  is_recording recording_two_blocks = true /\
  loop_buffer (fst (toggle_record recording_two_blocks)) = [1; 2; 3; 4] /\
  playback_index (fst (toggle_record recording_two_blocks)) = 0 /\
  is_playing (fst (toggle_record recording_two_blocks)) = true /\
  is_recording (fst (toggle_record recording_two_blocks)) = false /\
  record_queue (fst (toggle_record recording_two_blocks)) = [].
Proof.
  assert (H : is_recording recording_two_blocks = true) by reflexivity.
  destruct (@toggle_record_stop nat recording_two_blocks H)
    as (_ & Hq & Hrec & Hdata & _).
  assert (Hne : record_queue recording_two_blocks <> []) by discriminate.
  destruct (Hdata Hne) as (Hbuf & Hcur & Hplay).
  repeat split; assumption.
Defined.

Lemma callback_empty_loop_passthrough_witness :
  (loop_buffer empty_loop_playing = [] /\
   is_playing empty_loop_playing = true /\
   is_recording empty_loop_playing = false /\
   length [5; 6; 7] = 3) /\
  snd (audio_callback Nat.add 0 [5; 6; 7] 3 false empty_loop_playing) =
    Ret [5; 6; 7] /\
  playback_index
    (fst (audio_callback Nat.add 0 [5; 6; 7] 3 false empty_loop_playing)) =
    0 /\
  monitor_queue
    (fst (audio_callback Nat.add 0 [5; 6; 7] 3 false empty_loop_playing)) =
    [[5; 6; 7]].
Proof.
  split; [repeat split|].
  destruct (@callback_empty_loop_passthrough nat Nat.add 0
              empty_loop_playing [5; 6; 7] 3 false
              eq_refl eq_refl eq_refl eq_refl)
    as (Hout & Hcur & _ & Hmon).
  repeat split; assumption.
Defined.

(** The timer of a timed recording that was stopped by hand starts a new
    recording when it expires. *)
Lemma timer_fire_when_stopped_witness :
  (is_recording timed_then_manual_stop = false /\
   is_playing timed_then_manual_stop = true /\
   loop_buffer timed_then_manual_stop = [1; 2] /\
   nth_error (timers timed_then_manual_stop) 0 = Some 500%Z) /\
  is_recording (fst (timer_fire 0 timed_then_manual_stop)) = true /\
  is_playing (fst (timer_fire 0 timed_then_manual_stop)) = false.
Proof.
  split; [repeat split|].
  destruct (@timer_fire_when_stopped nat timed_then_manual_stop 0 500%Z
              eq_refl eq_refl)
    as (_ & Hrec & Hplay & _).
  split; assumption.
Defined.

(** Record, then pause: both flags are true. *)
Lemma record_then_pause_both_flags :
  ~ (forall ops : list (op nat),
        forallb (@is_control nat) ops = true ->
        is_recording (run_mono ops initial_state)
        && is_playing (run_mono ops initial_state) = false).
Proof.
  intros H.
  specialize (H [ToggleRecord; TogglePlayback] eq_refl).
  vm_compute in H. discriminate H.
Qed.

Lemma recording_excludes_playing_witness :
  all_guarded Nat.add 0
    [ToggleRecord; AudioCallback [1; 2] 2 false; ToggleRecord;
     TogglePlayback; RecordForDuration (Some 500%Z); TimerFire 0;
     ToggleMonitor; ResetLoop]
    initial_state = true /\
  is_recording
    (run Nat.add 0
       [ToggleRecord; AudioCallback [1; 2] 2 false; ToggleRecord;
        TogglePlayback; RecordForDuration (Some 500%Z); TimerFire 0;
        ToggleMonitor; ResetLoop]
       initial_state)
  && is_playing
       (run Nat.add 0
          [ToggleRecord; AudioCallback [1; 2] 2 false; ToggleRecord;
           TogglePlayback; RecordForDuration (Some 500%Z); TimerFire 0;
           ToggleMonitor; ResetLoop]
          initial_state) = false.
Proof.
  split; [reflexivity|].
  exact (@recording_excludes_playing nat Nat.add 0
           [ToggleRecord; AudioCallback [1; 2] 2 false; ToggleRecord;
            TogglePlayback; RecordForDuration (Some 500%Z); TimerFire 0;
            ToggleMonitor; ResetLoop]
           eq_refl).
Defined.

(** Pause pressed while recording: [is_playing] changes. *)
Lemma toggle_playback_while_recording :
  ~ (forall s : state nat,
        is_recording s = true ->
        is_playing (fst (toggle_playback s)) = is_playing s).
Proof.
  intros H.
  specialize (H recording_two_blocks eq_refl).
  vm_compute in H. discriminate H.
Qed.

(** Record pressed while recording: the recording stops and the capture
    queue is emptied into the loop. *)
Lemma toggle_record_while_recording :
  ~ (forall s : state nat,
        is_recording s = true ->
        is_recording (fst (toggle_record s)) = true /\
        record_queue (fst (toggle_record s)) = record_queue s /\
        loop_buffer (fst (toggle_record s)) = loop_buffer s /\
        playback_index (fst (toggle_record s)) = playback_index s).
Proof.
  intros H.
  destruct (H recording_two_blocks eq_refl) as [Hrec _].
  vm_compute in Hrec. discriminate Hrec.
Qed.

Lemma record_for_duration_while_recording_witness :
  is_recording recording_two_blocks = true /\
  duration_converts (Some 130%Z) = true /\
  fst (record_for_duration (Some 130%Z) recording_two_blocks) =
    set_console [MsgTimedAlready] recording_two_blocks /\
  record_queue (fst (record_for_duration (Some 130%Z) recording_two_blocks)) =
    [[1; 2]; [3; 4]].
Proof.
  split; [reflexivity|]. split; [reflexivity|].
  destruct (@record_for_duration_while_recording nat recording_two_blocks
              (Some 130%Z) eq_refl eq_refl)
    as (_ & Hst & Hq & _).
  split; assumption.
Defined.

(** Whatever the bound, one more push exceeds it. *)
Lemma monitor_queue_has_no_bound :
  ~ (exists bound : nat,
        forall (s : state nat) (indata : list nat) (frames : nat)
               (status : bool),
          length (monitor_queue s) <= bound ->
          length (monitor_queue
                    (fst (audio_callback Nat.add 0 indata frames status s)))
          <= bound).
Proof.
  intros [bound H].
  specialize (H (mkState [] [] (repeat [] bound) false false true 0 false
                         [] [])
                [] 0 false).
  cbn in H. rewrite length_app, repeat_length in H. cbn in H.
  specialize (H (Nat.le_refl bound)). lia.
Qed.

Lemma monitor_push_unbounded_witness :
  (is_recording loop_4_at_3 = false /\
   monitor_enabled loop_4_at_3 = true) /\
  snd (audio_callback Nat.add 0 [100; 200] 2 false loop_4_at_3) <> Blocks /\
  (exists pushed : list nat,
     monitor_queue
       (fst (audio_callback Nat.add 0 [100; 200] 2 false loop_4_at_3)) =
       [[1]; [2]] ++ [pushed] /\
     np_add Nat.add [13; 10] [100; 200] = Ret pushed) /\
  monitor_queue
    (run Nat.add 0 (callback_ops [([5], 1, false); ([6; 7], 2, true)])
         (set_is_playing false loop_4_at_3)) =
    [[1]; [2]; [5]; [6; 7]].
Proof.
  split; [split; reflexivity|].
  destruct (@monitor_push_unbounded nat Nat.add 0 loop_4_at_3 [100; 200] 2
              false [] eq_refl eq_refl)
    as (Hblock & _ & Hpush & _).
  split; [exact Hblock|]. split.
  - destruct (Hpush [13; 10] eq_refl) as (pushed & Hq & Hwhat & _).
    exists pushed. split; [exact Hq|exact Hwhat].
  - destruct (@monitor_push_unbounded nat Nat.add 0
                (set_is_playing false loop_4_at_3) [] 0 false
                [([5], 1, false); ([6; 7], 2, true)] eq_refl eq_refl)
      as (_ & _ & _ & _ & _ & _ & _ & _ & Hrun).
    assert (Hall : Forall (@as_delivered nat)
                          [([5], 1, false); ([6; 7], 2, true)])
      by (repeat constructor).
    exact (proj1 (Hrun eq_refl Hall)).
Defined.

Lemma toggles_change_only_their_flag_witness :
  is_recording loop_4_at_3 = false /\
  playback_index (fst (toggle_playback loop_4_at_3)) = 3 /\
  loop_buffer (fst (toggle_monitor loop_4_at_3)) = [10; 11; 12; 13] /\
  playback_index
    (fst (toggle_playback
            (run Nat.add 0
                 (callback_ops [([1; 2], 2, false); ([3], 1, true)])
                 (fst (toggle_playback loop_4_at_3))))) = 3.
Proof.
  split; [reflexivity|].
  destruct (@toggles_change_only_their_flag nat Nat.add 0 loop_4_at_3
              [([1; 2], 2, false); ([3], 1, true)])
    as (Hp & Hm & Hres).
  destruct (Hp eq_refl) as (_ & _ & _ & _ & Hcur & _).
  destruct Hm as (_ & _ & Hbuf & _).
  destruct (Hres eq_refl eq_refl _ eq_refl) as (_ & _ & _ & Hcur' & _).
  repeat split; assumption.
Defined.

(** * Device selection: properties *)

Module DeviceFacts.

Import String.
Import Devices.

Lemma str_in_In (x : string) (l : list string) :
  str_in x l = true <-> In x l.
Proof.
  unfold str_in. rewrite existsb_exists. split.
  - intros (y & Hy & Heq). apply String.eqb_eq in Heq. now subst.
  - intros H. exists x. split; [exact H|apply String.eqb_refl].
Qed.

Lemma fromkeys_fold (keys acc : list string) :
  NoDup acc ->
  NoDup (fold_left (fun d k => if str_in k d then d else (d ++ [k])%list)
                   keys acc) /\
  forall x,
    In x (fold_left (fun d k => if str_in k d then d else (d ++ [k])%list)
                    keys acc) <->
    In x acc \/ In x keys.
Proof.
  revert acc.
  induction keys as [|k keys IH]; intros acc Hacc; cbn [fold_left].
  - split; [exact Hacc|]. intros x. cbn. tauto.
  - destruct (str_in k acc) eqn:Hk.
    + apply str_in_In in Hk.
      destruct (IH acc Hacc) as [Hnd Hin]. split; [exact Hnd|].
      intros x. rewrite Hin. cbn. intuition (subst; auto).
    + assert (Hnotin : ~ In k acc).
      { intros Hin. apply str_in_In in Hin. congruence. }
      assert (Hacc' : NoDup (acc ++ [k])).
      { apply NoDup_app; [exact Hacc|repeat constructor; intros []|].
        intros y Hy [<-|[]]. contradiction. }
      destruct (IH _ Hacc') as [Hnd Hin]. split; [exact Hnd|].
      intros x. rewrite Hin, in_app_iff. cbn. tauto.
Qed.

Lemma dict_fromkeys_NoDup (keys : list string) : NoDup (dict_fromkeys keys).
Proof. apply fromkeys_fold. constructor. Qed.

Lemma dict_fromkeys_In (keys : list string) (x : string) :
  In x (dict_fromkeys keys) <-> In x keys.
Proof.
  unfold dict_fromkeys.
  destruct (fromkeys_fold keys (NoDup_nil string)) as [_ H].
  rewrite H. cbn. tauto.
Qed.

Lemma next_named_first (device_list : list device) (nm : string) (d : device) :
  next_named device_list nm = Some d ->
  name d = nm /\
  exists j,
    nth_error device_list j = Some d /\
    forall j' d', j' < j -> nth_error device_list j' = Some d' ->
                  name d' <> nm.
Proof.
  unfold next_named.
  induction device_list as [|d1 l IH]; cbn [find]; [discriminate|].
  destruct (String.eqb_spec (name d1) nm) as [Heq|Hne].
  - intros [= <-]. split; [exact Heq|]. exists 0. split; [reflexivity|].
    intros j' d' Hlt. lia.
  - intros H. destruct (IH H) as (Hname & j & Hj & Hfirst).
    split; [exact Hname|]. exists (S j). split; [exact Hj|].
    intros [|j'] d' Hlt Hd'; cbn in Hd'.
    + now injection Hd' as <-.
    + apply (Hfirst j'); [lia|exact Hd'].
Qed.

Lemma next_named_none (device_list : list device) (nm : string) :
  next_named device_list nm = None <->
  forall d, In d device_list -> name d <> nm.
Proof.
  unfold next_named. split.
  - intros H d Hd Heq.
    pose proof (find_none _ _ H d Hd) as Hf. cbn in Hf.
    rewrite Heq, String.eqb_refl in Hf. discriminate.
  - intros H.
    destruct (find _ device_list) as [d|] eqn:Hf; [|reflexivity].
    apply find_some in Hf. destruct Hf as [Hd Heq].
    apply String.eqb_eq in Heq. now apply H in Hd.
Qed.

Lemma enumerate_devices_spec (hostapis : list string)
      (devices : list sd_device) (idx : nat) (device_list : list device) :
  enumerate_devices idx hostapis devices = Some device_list ->
  List.length device_list = List.length devices /\
  forall i d,
    nth_error device_list i = Some d ->
    index d = idx + i /\
    exists dev,
      nth_error devices i = Some dev /\
      name d = sd_name dev /\
      nth_error hostapis (sd_hostapi dev) = Some (hostapi d) /\
      max_input_channels d = sd_max_input_channels dev /\
      max_output_channels d = sd_max_output_channels dev.
Proof.
  revert idx device_list.
  induction devices as [|dev devices IH]; intros idx device_list;
    cbn [enumerate_devices].
  - intros [= <-]. split; [reflexivity|]. intros [|i] d; discriminate.
  - destruct (nth_error hostapis (sd_hostapi dev)) as [host|] eqn:Hhost;
      [|discriminate].
    destruct (enumerate_devices (S idx) hostapis devices) as [rest|] eqn:Hrest;
      [|discriminate].
    intros [= <-]. destruct (IH _ _ Hrest) as [Hlen Hnth].
    split; [cbn; now rewrite Hlen|].
    intros [|i] d Hd; cbn in Hd.
    + injection Hd as <-. cbn. split; [lia|].
      exists dev. repeat split. exact Hhost.
    + destruct (Hnth i d Hd) as (Hidx & dev' & H1 & H2).
      split; [lia|]. exists dev'. split; [exact H1|exact H2].
Qed.

(** X13. When [device_list] can be built, it has one entry per device, in the
    order of [sd.query_devices()]: the entry at position [i] carries index
    [i], the name and the channel counts of device [i], and the name of its
    host API. *)
Theorem device_list_positions
        (hostapis : list string) (devices : list sd_device)
        (device_list : list device) :
  build_device_list hostapis devices = Some device_list ->
  List.length device_list = List.length devices /\
  forall i d,
    nth_error device_list i = Some d ->
    index d = i /\
    exists dev,
      nth_error devices i = Some dev /\
      name d = sd_name dev /\
      nth_error hostapis (sd_hostapi dev) = Some (hostapi d) /\
      max_input_channels d = sd_max_input_channels dev /\
      max_output_channels d = sd_max_output_channels dev.
Proof.
  intros H. apply enumerate_devices_spec in H.
  destruct H as [Hlen Hnth]. split; [exact Hlen|].
  intros i d Hd. apply (Hnth i d Hd).
Qed.

Lemma update_output_options_eq
      (device_list : list device) (g g' : combos) :
  update_output_options device_list g = Some g' ->
  exists d0 opts,
    next_named device_list (input_value g) = Some d0 /\
    opts = dict_fromkeys
             (map name
                  (filter (fun d => String.eqb (hostapi d) (hostapi d0)
                                    && (0 <? max_output_channels d))
                          device_list)) /\
    g' = mkCombos (input_value g) opts
           (if negb (str_in (loop_value g) opts)
            then first_or_empty opts else loop_value g)
           opts
           (if negb (str_in (monitor_value g) opts)
            then first_or_empty opts else monitor_value g).
Proof.
  unfold update_output_options.
  destruct (next_named device_list (input_value g)) as [d0|]; [|discriminate].
  intros [= <-]. exists d0. eexists. repeat split.
Qed.

Lemma options_In (device_list : list device) (input nm : string)
      (d0 : device) :
  next_named device_list input = Some d0 ->
  In nm (dict_fromkeys
           (map name
                (filter (fun d => String.eqb (hostapi d) (hostapi d0)
                                  && (0 <? max_output_channels d))
                        device_list))) <->
  exists d, output_of_host device_list input d /\ name d = nm.
Proof.
  intros Hd0. rewrite dict_fromkeys_In, in_map_iff. split.
  - intros (d & Hname & Hd). apply filter_In in Hd.
    destruct Hd as [Hin Hp]. apply andb_true_iff in Hp.
    destruct Hp as [Hhost Hout].
    apply String.eqb_eq in Hhost. apply Nat.ltb_lt in Hout.
    exists d. split; [|exact Hname].
    split; [exact Hin|]. split; [exact Hout|]. now exists d0.
  - intros (d & (Hin & Hout & d0' & Hd0' & Hhost) & Hname).
    rewrite Hd0 in Hd0'. injection Hd0' as <-.
    exists d. split; [exact Hname|]. apply filter_In. split; [exact Hin|].
    apply andb_true_iff. split.
    + now apply String.eqb_eq.
    + now apply Nat.ltb_lt.
Qed.

Lemma output_options_sound_aux
      (device_list : list device) (g g' : combos) :
  update_output_options device_list g = Some g' ->
  (forall nm,
      In nm (loop_values g') ->
      exists d, output_of_host device_list (input_value g) d /\ name d = nm)
  /\ monitor_values g' = loop_values g'.
Proof.
  intros H. apply update_output_options_eq in H.
  destruct H as (d0 & opts & Hd0 & -> & ->). cbn.
  split; [|reflexivity]. intros nm. now apply options_In.
Qed.

(** X14. After [update_output_options], the values of the loop and of the
    monitor combobox are the same list, without repetition, and a name is
    in it exactly when it is the name of a device with output channels on
    the host API of the input device. *)
Theorem output_options_sound
        (device_list : list device) (g g' : combos) :
  update_output_options device_list g = Some g' ->
  NoDup (loop_values g') /\
  monitor_values g' = loop_values g' /\
  input_value g' = input_value g /\
  forall nm,
    In nm (loop_values g') <->
    exists d, output_of_host device_list (input_value g) d /\ name d = nm.
Proof.
  intros H. apply update_output_options_eq in H.
  destruct H as (d0 & opts & Hd0 & -> & ->). cbn.
  split; [apply dict_fromkeys_NoDup|]. split; [reflexivity|].
  split; [reflexivity|]. intros nm. now apply options_In.
Qed.

Lemma selection_after (opts : list string) (v : string) :
  let v' := if negb (str_in v opts) then first_or_empty opts else v in
  ((opts = [] /\ v' = EmptyString) \/ In v' opts) /\
  (In v opts -> v' = v).
Proof.
  cbv zeta. destruct (str_in v opts) eqn:Hv; cbn [negb].
  - apply str_in_In in Hv. split; [now right|reflexivity].
  - split.
    + destruct opts as [|x opts]; cbn; [now left|right; now left].
    + intros Hin. apply str_in_In in Hin. congruence.
Qed.

(** X15. After [update_output_options], the text of the loop combobox is one of
    its values, or is empty when there is no value; a text that was already
    one of the new values is kept. The same holds for the monitor
    combobox. *)
Theorem output_selection_valid
        (device_list : list device) (g g' : combos) :
  update_output_options device_list g = Some g' ->
  ((loop_values g' = [] /\ loop_value g' = EmptyString) \/
   In (loop_value g') (loop_values g')) /\
  (In (loop_value g) (loop_values g') -> loop_value g' = loop_value g) /\
  ((monitor_values g' = [] /\ monitor_value g' = EmptyString) \/
   In (monitor_value g') (monitor_values g')) /\
  (In (monitor_value g) (monitor_values g') ->
   monitor_value g' = monitor_value g).
Proof.
  intros H. apply update_output_options_eq in H.
  destruct H as (d0 & opts & Hd0 & Hopts & ->). cbn.
  destruct (selection_after opts (loop_value g)) as [H1 H2].
  destruct (selection_after opts (monitor_value g)) as [H3 H4].
  auto.
Qed.

(** X16. [update_output_options] raises StopIteration exactly when no device
    carries the text of the input combobox. *)
Theorem update_output_options_fails_iff
        (device_list : list device) (g : combos) :
  update_output_options device_list g = None <->
  forall d, In d device_list -> name d <> input_value g.
Proof.
  rewrite <- next_named_none. unfold update_output_options.
  destruct (next_named device_list (input_value g)); split; congruence.
Qed.

Lemma device_index_position
      (hostapis : list string) (devices : list sd_device)
      (device_list : list device) (nm : string) (d : device) :
  build_device_list hostapis devices = Some device_list ->
  next_named device_list nm = Some d ->
  device_index device_list nm = Some (index d) /\
  nth_error device_list (index d) = Some d /\
  name d = nm /\
  forall j' d', j' < index d -> nth_error device_list j' = Some d' ->
                name d' <> nm.
Proof.
  intros Hbuild Hd. unfold device_index. rewrite Hd. cbn.
  destruct (next_named_first _ _ Hd) as (Hname & j & Hj & Hfirst).
  apply enumerate_devices_spec in Hbuild. destruct Hbuild as [_ Hnth].
  destruct (Hnth j d Hj) as [Hidx _]. cbn in Hidx. subst j.
  repeat split; assumption.
Qed.

Lemma value_named (device_list : list device) (g g' : combos) (v : string) :
  update_output_options device_list g = Some g' ->
  In v (loop_values g') ->
  exists d, next_named device_list v = Some d.
Proof.
  intros H Hv.
  destruct (output_options_sound_aux device_list g H) as [Hin _].
  apply Hin in Hv. destruct Hv as (d & (Hd & _) & Hname).
  destruct (next_named device_list v) as [d1|] eqn:Hn; [now exists d1|].
  exfalso. apply (proj1 (next_named_none device_list v) Hn d Hd Hname).
Qed.

Lemma selected_value_named
      (device_list : list device) (g g' : combos) :
  update_output_options device_list g = Some g' ->
  loop_values g' <> [] ->
  (exists d, next_named device_list (input_value g') = Some d) /\
  (exists d, next_named device_list (loop_value g') = Some d) /\
  (exists d, next_named device_list (monitor_value g') = Some d).
Proof.
  intros H Hne.
  pose proof (@update_output_options_eq device_list g g' H)
    as (d0 & opts & Hd0 & Hopts & Hg').
  assert (Hloop : In (loop_value g') (loop_values g') /\
                  In (monitor_value g') (loop_values g')).
  { rewrite Hg' in *. cbn in *.
    destruct (selection_after opts (loop_value g)) as [[[He _]|H1] _];
      [contradiction|].
    destruct (selection_after opts (monitor_value g)) as [[[He _]|H2] _];
      [contradiction|].
    split; assumption. }
  destruct Hloop as [Hl Hm].
  split; [|split].
  - exists d0. rewrite Hg'. exact Hd0.
  - eapply value_named; eassumption.
  - eapply value_named; eassumption.
Qed.

(** X17. Once the output options are not empty, the three lookups of
    [apply_settings] succeed, and each index it computes is the position, in
    [device_list], of the first device that carries the chosen name. *)
Theorem apply_settings_resolves
        (hostapis : list string) (devices : list sd_device)
        (device_list : list device) (g g' : combos) :
  build_device_list hostapis devices = Some device_list ->
  update_output_options device_list g = Some g' ->
  loop_values g' <> [] ->
  exists di dl dm,
    apply_settings_indices device_list g' =
      Some (index di, index dl, index dm) /\
    (nth_error device_list (index di) = Some di /\
     name di = input_value g' /\
     forall j d, j < index di -> nth_error device_list j = Some d ->
                 name d <> input_value g') /\
    (nth_error device_list (index dl) = Some dl /\
     name dl = loop_value g' /\
     forall j d, j < index dl -> nth_error device_list j = Some d ->
                 name d <> loop_value g') /\
    (nth_error device_list (index dm) = Some dm /\
     name dm = monitor_value g' /\
     forall j d, j < index dm -> nth_error device_list j = Some d ->
                 name d <> monitor_value g').
Proof.
  intros Hbuild Hupd Hne.
  destruct (@selected_value_named device_list g g' Hupd Hne)
    as ((di & Hi) & (dl & Hl) & (dm & Hm)).
  destruct (@device_index_position hostapis devices device_list
              (input_value g') di Hbuild Hi) as (Ei & Pi).
  destruct (@device_index_position hostapis devices device_list
              (loop_value g') dl Hbuild Hl) as (El & Pl).
  destruct (@device_index_position hostapis devices device_list
              (monitor_value g') dm Hbuild Hm) as (Em & Pm).
  exists di, dl, dm. unfold apply_settings_indices.
  rewrite Ei, El, Em. repeat split; try apply Pi; try apply Pl; apply Pm.
Qed.

Lemma unique_name (device_list : list device) (d d' : device) :
  NoDup (map name device_list) ->
  In d device_list -> In d' device_list -> name d = name d' -> d = d'.
Proof.
  induction device_list as [|d1 l IH]; intros Hnd Hd Hd' Heq; [destruct Hd|].
  cbn in Hnd. inversion Hnd as [|x xs Hnotin Hnd']; subst.
  destruct Hd as [<-|Hd], Hd' as [<-|Hd'].
  - reflexivity.
  - exfalso. apply Hnotin. rewrite Heq. now apply in_map.
  - exfalso. apply Hnotin. rewrite <- Heq. now apply in_map.
  - now apply IH.
Qed.

(** X18. When no two devices share a name, the devices [apply_settings] picks
    for the loop and for the monitor have output channels and are on the
    host API of the input device. *)
Theorem unique_names_pick_outputs
        (device_list : list device) (g g' : combos) :
  update_output_options device_list g = Some g' ->
  loop_values g' <> [] ->
  NoDup (map name device_list) ->
  exists dl dm,
    next_named device_list (loop_value g') = Some dl /\
    output_of_host device_list (input_value g) dl /\
    next_named device_list (monitor_value g') = Some dm /\
    output_of_host device_list (input_value g) dm.
Proof.
  intros Hupd Hne Hnd.
  destruct (@selected_value_named device_list g g' Hupd Hne)
    as (_ & (dl & Hl) & (dm & Hm)).
  pose proof (@update_output_options_eq device_list g g' Hupd)
    as (d0 & opts & Hd0 & Hopts & Hg').
  assert (Hin : In (loop_value g') opts /\ In (monitor_value g') opts).
  { rewrite Hg' in *. cbn in *.
    destruct (selection_after opts (loop_value g)) as [[[He _]|H1] _];
      [contradiction|].
    destruct (selection_after opts (monitor_value g)) as [[[He _]|H2] _];
      [contradiction|].
    split; assumption. }
  destruct Hin as [Hinl Hinm]. rewrite Hopts in Hinl, Hinm.
  apply (@options_In device_list (input_value g) _ d0 Hd0) in Hinl, Hinm.
  destruct Hinl as (d1 & Hout1 & Hn1). destruct Hinm as (d2 & Hout2 & Hn2).
  assert (Hfound : forall nm d, next_named device_list nm = Some d ->
                                In d device_list /\ name d = nm).
  { intros nm d Hd. unfold next_named in Hd. apply find_some in Hd.
    destruct Hd as [Hd Heq]. apply String.eqb_eq in Heq. now split. }
  destruct (Hfound _ _ Hl) as [Hdl Hnl]. destruct (Hfound _ _ Hm) as [Hdm Hnm].
  assert (dl = d1)
    by (apply (unique_name device_list); try assumption;
        [apply Hout1|congruence]).
  assert (dm = d2)
    by (apply (unique_name device_list); try assumption;
        [apply Hout2|congruence]).
  subst. exists d1, d2. repeat split; try assumption; apply Hout1 || apply Hout2.
Qed.

(** X19. When the host API of the input device has no device with output
    channels, the loop combobox is left empty, and [apply_settings] raises
    StopIteration (no device has an empty name). *)
Theorem apply_settings_without_outputs
        (device_list : list device) (g g' : combos) :
  update_output_options device_list g = Some g' ->
  loop_values g' = [] ->
  (forall d, In d device_list -> name d <> EmptyString) ->
  loop_value g' = EmptyString /\
  monitor_value g' = EmptyString /\
  apply_settings_indices device_list g' = None.
Proof.
  intros Hupd Hempty Hnames.
  pose proof (@update_output_options_eq device_list g g' Hupd)
    as (d0 & opts & Hd0 & Hopts & Hg').
  assert (Ho : opts = []) by (rewrite Hg' in Hempty; exact Hempty).
  assert (Hl : loop_value g' = EmptyString)
    by (rewrite Hg', Ho; reflexivity).
  assert (Hm : monitor_value g' = EmptyString)
    by (rewrite Hg', Ho; reflexivity).
  split; [exact Hl|]. split; [exact Hm|].
  unfold apply_settings_indices, device_index.
  rewrite Hl. apply next_named_none in Hnames. rewrite Hnames.
  destruct (next_named device_list (input_value g')); reflexivity.
Qed.

(** ** Worked device lists *)

Local Open Scope string_scope.

Example three_devices_listed :
  build_device_list two_hostapis three_devices = Some three_listed.
Proof. reflexivity. Qed.

Lemma device_list_positions_witness :
  build_device_list two_hostapis three_devices = Some three_listed /\
  List.length three_listed = 3 /\
  index (mkDevice 2 "sink" "JACK" 0 2) = 2.
Proof.
  destruct (@device_list_positions two_hostapis three_devices three_listed
              eq_refl) as [Hlen Hnth].
  split; [reflexivity|]. split; [exact Hlen|].
  exact (proj1 (Hnth 2 (mkDevice 2 "sink" "JACK" 0 2) eq_refl)).
Defined.

Lemma output_options_sound_witness :
  update_output_options three_listed fresh_combos =
    Some (mkCombos "mic" ["headset"] "headset" ["headset"] "headset") /\
  NoDup ["headset"%string].
Proof.
  split; [reflexivity|].
  exact (proj1 (@output_options_sound three_listed fresh_combos
                  (mkCombos "mic" ["headset"] "headset" ["headset"] "headset")
                  eq_refl)).
Defined.

Lemma output_selection_valid_witness :
  update_output_options three_listed
    (mkCombos "mic" [] "headset" [] "sink") =
    Some (mkCombos "mic" ["headset"] "headset" ["headset"] "headset") /\
  ((["headset"] = [] /\ "headset" = "") \/ In "headset" ["headset"]).
Proof.
  split; [reflexivity|].
  destruct (@output_selection_valid three_listed
              (mkCombos "mic" [] "headset" [] "sink")
              (mkCombos "mic" ["headset"] "headset" ["headset"] "headset")
              eq_refl) as (Hloop & _).
  exact Hloop.
Defined.

Lemma apply_settings_resolves_witness :
  build_device_list two_hostapis three_devices = Some three_listed /\
  exists di dl dm,
    apply_settings_indices three_listed
      (mkCombos "mic" ["headset"] "headset" ["headset"] "headset") =
      Some (index di, index dl, index dm).
Proof.
  split; [reflexivity|].
  destruct (@apply_settings_resolves two_hostapis three_devices three_listed
              fresh_combos
              (mkCombos "mic" ["headset"] "headset" ["headset"] "headset")
              eq_refl eq_refl)
    as (di & dl & dm & H & _).
  - discriminate.
  - exists di, dl, dm. exact H.
Defined.

Lemma unique_names_pick_outputs_witness :
  NoDup (map name three_listed) /\
  exists dl,
    next_named three_listed "headset" = Some dl /\
    output_of_host three_listed "mic" dl.
Proof.
  assert (Hnd : NoDup (map name three_listed)).
  { cbn. repeat constructor; cbn; intuition discriminate. }
  split; [exact Hnd|].
  destruct (@unique_names_pick_outputs three_listed fresh_combos
              (mkCombos "mic" ["headset"] "headset" ["headset"] "headset")
              eq_refl)
    as (dl & dm & H1 & H2 & _).
  - discriminate.
  - exact Hnd.
  - exists dl. split; assumption.
Defined.

Lemma apply_settings_without_outputs_witness :
  update_output_options lone_mic fresh_combos =
    Some (mkCombos "mic" [] "" [] "") /\
  apply_settings_indices lone_mic (mkCombos "mic" [] "" [] "") = None.
Proof.
  split; [reflexivity|].
  destruct (@apply_settings_without_outputs lone_mic fresh_combos
              (mkCombos "mic" [] "" [] "") eq_refl eq_refl)
    as (_ & _ & H).
  - intros d [<-|[]]. discriminate.
  - exact H.
Defined.

End DeviceFacts.

(** * Saved settings: properties *)

Module ConfigFacts.

Import String.
Import Config.
Local Open Scope string_scope.

Section Json.

Variable number : Type.

Abbreviation json := (json number).

Lemma dict_get_missing (d : list (string * json)) (key : string)
      (default : json) :
  ~ In key (map fst d) -> dict_get d key default = default.
Proof.
  induction d as [|[k v] d IH]; intros Hnot; cbn; [reflexivity|].
  destruct (String.eqb_spec k key) as [->|Hne].
  - exfalso. apply Hnot. now left.
  - apply IH. intros Hin. apply Hnot. now right.
Qed.

(** X20. What [save_and_exit] of looper_v0.6.py writes is read back by the
    loading block as it was: the four hotkeys and the three device
    names. *)
Theorem config_round_trip
        (record_key_var reset_key_var pause_key_var timed_key_var
         input_name loop_name monitor_name : string) :
  load_config
    (Parsed (save_config number record_key_var reset_key_var pause_key_var
                         timed_key_var input_name loop_name monitor_name)) =
  mkSettings (JStr number record_key_var) (JStr number reset_key_var)
             (JStr number pause_key_var) (JStr number timed_key_var)
             (Some (JStr number input_name)) (Some (JStr number loop_name))
             (Some (JStr number monitor_name)) false.
Proof. reflexivity. Qed.

(** X21. A file written by looper_v0.4.py is read by looper_v0.6.py with the
    saved record, reset and pause hotkeys and device names, and with the
    timed-record hotkey at its default, F12. *)
Theorem config_from_v04
        (record_key_var reset_key_var pause_key_var
         input_name loop_name monitor_name : string) :
  load_config
    (Parsed (save_config_v04 number record_key_var reset_key_var
                             pause_key_var input_name loop_name
                             monitor_name)) =
  mkSettings (JStr number record_key_var) (JStr number reset_key_var)
             (JStr number pause_key_var) (JStr number "F12")
             (Some (JStr number input_name)) (Some (JStr number loop_name))
             (Some (JStr number monitor_name)) false.
Proof. reflexivity. Qed.

(** X22. The loading block fails exactly when the file is there but is not read
    as a JSON object. Then the four hotkeys keep their defaults and
    [last_input], [last_loop] and [last_monitor] are never assigned;
    otherwise the three names are assigned. *)
Theorem load_config_failure (f : config_file number) :
  (load_failed (load_config f) = true <->
   f = Unreadable number \/
   exists v, f = Parsed v /\ forall items, v <> JObj items) /\
  (load_failed (load_config f) = true ->
   record_key (load_config f) = JStr number "F9" /\
   reset_key (load_config f) = JStr number "F10" /\
   pause_key (load_config f) = JStr number "F11" /\
   timed_key (load_config f) = JStr number "F12" /\
   last_input (load_config f) = None /\
   last_loop (load_config f) = None /\
   last_monitor (load_config f) = None) /\
  (load_failed (load_config f) = false ->
   last_input (load_config f) <> None /\
   last_loop (load_config f) <> None /\
   last_monitor (load_config f) <> None).
Proof.
  destruct f as [| |v]; [| |destruct v]; cbn.
  all: split; [split|split].
  all: try discriminate.
  all: try (intros _; repeat split; discriminate).
  all: try (intros _; repeat split; reflexivity).
  all: try (intros [H|(v & H & _)]; discriminate).
  all: try (intros _; now left).
  all: try (intros _; right; eexists; split; [reflexivity|discriminate]).
  intros [H|(v & [= <-] & Hv)]; [discriminate|].
  exfalso. now apply (Hv items).
Qed.

(** X23. A setting whose key is missing from the saved object gets its default
    (None for the three device names), whatever else the object holds. *)
Theorem load_config_missing_key (cfg : list (string * json)) :
  (~ In "record_key" (map fst cfg) ->
   record_key (load_config (Parsed (JObj cfg))) = JStr number "F9") /\
  (~ In "reset_key" (map fst cfg) ->
   reset_key (load_config (Parsed (JObj cfg))) = JStr number "F10") /\
  (~ In "pause_key" (map fst cfg) ->
   pause_key (load_config (Parsed (JObj cfg))) = JStr number "F11") /\
  (~ In "timed_key" (map fst cfg) ->
   timed_key (load_config (Parsed (JObj cfg))) = JStr number "F12") /\
  (~ In "input_name" (map fst cfg) ->
   last_input (load_config (Parsed (JObj cfg))) = Some (JNull number)) /\
  (~ In "loop_name" (map fst cfg) ->
   last_loop (load_config (Parsed (JObj cfg))) = Some (JNull number)) /\
  (~ In "monitor_name" (map fst cfg) ->
   last_monitor (load_config (Parsed (JObj cfg))) = Some (JNull number)).
Proof.
  cbn. repeat split; intros H; try f_equal; now apply dict_get_missing.
Qed.

End Json.

Lemma load_config_failure_witness :
  load_failed (load_config (Parsed (JArr (@nil (Config.json nat))))) = true /\
  last_input (load_config (Parsed (JArr (@nil (Config.json nat))))) = None /\
  last_input (load_config (NoFile nat)) <> None.
Proof.
  destruct (load_config_failure (Parsed (JArr (@nil (Config.json nat)))))
    as (_ & Hfail & _).
  destruct (load_config_failure (NoFile nat)) as (_ & _ & Hok).
  split; [reflexivity|]. split.
  - apply (Hfail eq_refl).
  - apply (Hok eq_refl).
Defined.

Lemma load_config_missing_key_witness :
  ~ In "timed_key" (map fst [("record_key", JStr nat "F5")]) /\
  timed_key (load_config (Parsed (JObj [("record_key", JStr nat "F5")]))) =
    JStr nat "F12".
Proof.
  assert (H : ~ In "timed_key" (map fst [("record_key", JStr nat "F5")])).
  { cbn. intros [H|[]]. discriminate H. }
  split; [exact H|].
  destruct (load_config_missing_key [("record_key", JStr nat "F5")])
    as (_ & _ & _ & Ht & _).
  exact (Ht H).
Defined.

End ConfigFacts.

(** * More worked runs *)

Lemma callback_recording_captures_witness :
  is_recording recording_two_blocks = true /\
  snd (audio_callback Nat.add 0 [5; 6] 2 false recording_two_blocks) =
    Ret [0; 0] /\
  record_queue
    (fst (audio_callback Nat.add 0 [5; 6] 2 false recording_two_blocks)) =
    [[1; 2]; [3; 4]; [5; 6]].
Proof.
  split; [reflexivity|].
  destruct (@callback_recording_captures nat Nat.add 0 recording_two_blocks
              [5; 6] 2 false eq_refl) as (Hout & Hq & _).
  split; [exact Hout|exact Hq].
Defined.

Lemma record_round_trip_witness :
  (is_recording (@initial_state nat) = false /\
   record_queue (@initial_state nat) = [] /\
   [([1; 2], 2, false); ([3], 1, false)] <> []) /\
  loop_buffer
    (run Nat.add 0
         (ToggleRecord
          :: callback_ops [([1; 2], 2, false); ([3], 1, false)]
          ++ [ToggleRecord])
         initial_state) = [1; 2; 3].
Proof.
  assert (Hne : [([1; 2], 2, false); ([3], 1, false)] <> [])
    by discriminate.
  split; [repeat split; exact Hne|].
  destruct (@record_round_trip nat Nat.add 0 initial_state
              [([1; 2], 2, false); ([3], 1, false)] eq_refl eq_refl Hne)
    as (Hbuf & _).
  exact Hbuf.
Defined.


Lemma double_toggle_without_audio_witness :
  (is_recording loop_4_at_3 = false /\ record_queue loop_4_at_3 = []) /\
  is_playing (run Nat.add 0 [ToggleRecord; ToggleRecord] loop_4_at_3) =
    false /\
  loop_buffer (run Nat.add 0 [ToggleRecord; ToggleRecord] loop_4_at_3) =
    [10; 11; 12; 13].
Proof.
  split; [split; reflexivity|].
  destruct (@double_toggle_without_audio nat Nat.add 0 loop_4_at_3
              eq_refl eq_refl) as (_ & Hplay & Hbuf & _).
  split; [exact Hplay|exact Hbuf].
Defined.

Lemma playback_stream_witness :
  (is_recording loop_4_at_3 = false /\
   is_playing loop_4_at_3 = true /\
   playback_index loop_4_at_3 < length (loop_buffer loop_4_at_3) /\
   Forall (well_sized (length (loop_buffer loop_4_at_3)))
          [([0; 0], 2, false); ([0; 0; 0], 3, false)]) /\
  exists outs : list (list nat),
    callback_outputs Nat.add 0
      [([0; 0], 2, false); ([0; 0; 0], 3, false)] loop_4_at_3 =
      map Ret outs /\
    map Some (concat outs) = circular_read [10; 11; 12; 13] 3 5 /\
    playback_index
      (run Nat.add 0
           (callback_ops [([0; 0], 2, false); ([0; 0; 0], 3, false)])
           loop_4_at_3) = 0.
Proof.
  assert (Hc : playback_index loop_4_at_3 < length (loop_buffer loop_4_at_3))
    by (cbn; lia).
  assert (Hall : Forall (well_sized (length (loop_buffer loop_4_at_3)))
                        [([0; 0], 2, false); ([0; 0; 0], 3, false)]).
  { repeat constructor; cbn; lia. }
  split; [repeat split; assumption|].
  exact (@playback_stream nat Nat.add 0 loop_4_at_3
           [([0; 0], 2, false); ([0; 0; 0], 3, false)]
           eq_refl eq_refl Hc Hall).
Defined.

Lemma callback_playing_returns_iff_witness :
  (is_recording loop_4_at_3 = false /\
   is_playing loop_4_at_3 = true /\
   playback_index loop_4_at_3 < length (loop_buffer loop_4_at_3) /\
   length [100; 200] = 2) /\
  exists outdata,
    snd (audio_callback Nat.add 0 [100; 200] 2 false loop_4_at_3) =
      Ret outdata.
Proof.
  assert (Hc : playback_index loop_4_at_3 < length (loop_buffer loop_4_at_3))
    by (cbn; lia).
  split; [repeat split; assumption|].
  apply (proj2 (@callback_playing_returns_iff nat Nat.add 0 loop_4_at_3
                  [100; 200] 2 false eq_refl eq_refl Hc eq_refl)).
  cbn. lia.
Defined.

Lemma monitor_mix_witness :
  (is_recording loop_4_at_3 = false /\
   is_playing loop_4_at_3 = true /\
   monitor_enabled loop_4_at_3 = true /\
   playback_index loop_4_at_3 < length (loop_buffer loop_4_at_3) /\
   playback_index loop_4_at_3 + 2 <= 2 * length (loop_buffer loop_4_at_3) /\
   length [100; 200] = 2) /\
  exists pushed : list nat,
    monitor_queue
      (fst (audio_callback Nat.add 0 [100; 200] 2 false loop_4_at_3)) =
      monitor_queue loop_4_at_3 ++ [pushed] /\
    length pushed = 2 /\
    nth_error pushed 1 = Some (10 + 200).
Proof.
  assert (Hc : playback_index loop_4_at_3 < length (loop_buffer loop_4_at_3))
    by (cbn; lia).
  assert (Hn : playback_index loop_4_at_3 + 2
               <= 2 * length (loop_buffer loop_4_at_3)) by (cbn; lia).
  split; [repeat split; assumption|].
  destruct (@monitor_mix nat Nat.add 0 loop_4_at_3 [100; 200] 2 false
              eq_refl eq_refl eq_refl Hc Hn eq_refl)
    as (pushed & Hq & Hlen & Hrows).
  exists pushed. split; [exact Hq|]. split; [exact Hlen|].
  exact (Hrows 1 10 200 eq_refl eq_refl).
Defined.

Lemma callback_paused_passthrough_witness :
  (is_recording (set_is_playing false loop_4_at_3) = false /\
   is_playing (set_is_playing false loop_4_at_3) = false /\
   length [100; 200] = 2) /\
  snd (audio_callback Nat.add 0 [100; 200] 2 false
                      (set_is_playing false loop_4_at_3)) =
    Ret [100; 200] /\
  playback_index
    (fst (audio_callback Nat.add 0 [100; 200] 2 false
                         (set_is_playing false loop_4_at_3))) = 3.
Proof.
  split; [repeat split|].
  destruct (@callback_paused_passthrough nat Nat.add 0
              (set_is_playing false loop_4_at_3) [100; 200] 2 false
              eq_refl eq_refl eq_refl) as (Hout & Hcur & _).
  split; [exact Hout|exact Hcur].
Defined.

Lemma callback_playing_single_wrap_witness :
  (is_recording loop_4_at_3 = false /\
   is_playing loop_4_at_3 = true /\
   playback_index loop_4_at_3 < length (loop_buffer loop_4_at_3) /\
   playback_index loop_4_at_3 + 2 <= 2 * length (loop_buffer loop_4_at_3) /\
   length [100; 200] = 2) /\
  snd (audio_callback Nat.add 0 [100; 200] 2 false loop_4_at_3) =
    Ret [13; 10] /\
  playback_index
    (fst (audio_callback Nat.add 0 [100; 200] 2 false loop_4_at_3)) = 1.
Proof.
  assert (Hc : playback_index loop_4_at_3 < length (loop_buffer loop_4_at_3))
    by (cbn; lia).
  assert (Hn : playback_index loop_4_at_3 + 2
               <= 2 * length (loop_buffer loop_4_at_3)) by (cbn; lia).
  split; [repeat split; assumption|].
  destruct (@callback_playing_single_wrap nat Nat.add 0 loop_4_at_3
              [100; 200] 2 false eq_refl eq_refl Hc Hn eq_refl)
    as (Hout & _ & Hcur).
  split; [exact Hout|exact Hcur].
Defined.
